(** * amper: policy composition of a container

    Shallow embedding of [amper/amper_container.go]: the container's three
    operations [AddPolicyTemplate], [AddAttachment] and [Policy], with Go maps
    as [gmap], the per-account scope sets as [gset], slices as lists and the
    calls on the external collaborators (template rendering, compression,
    console output) recorded in a trace. *)

From stdpp Require Import base strings gmap sorting list fin_maps.

(** ** Data model *)

(** A Go [error] built by [fmt.Errorf] is represented by its message. *)
Definition error := string.

(** Identity of a heap object (a kernel or a container); [None] is [nil]. *)
Definition ptr := nat.

(** The policy document model is declared outside this file; the records
    have the fields this file reads or writes. A nil slice is the empty
    list. *)
Record IAMPolicyStatement := mkStatement {
  Sid : string;
  Effect : string;
  Actions : list string;
  NotActions : list string;
  Resources : list string
}.

Record IAMPolicyDoc := mkDoc {
  Version : string;
  Statements : list IAMPolicyStatement
}.

(** The two documents of a service role are kept as the render methods
    return them; [None] is a nil document. *)
Record ServiceRolePolicy := mkServiceRolePolicy {
  srp_Policy : option IAMPolicyDoc;
  srp_AssumeRolePolicy : option IAMPolicyDoc
}.

Record ServiceRole := mkServiceRole { sr_Name : string }.

Record Account := mkAccount { acc_Name : string }.

(** A template: the fields this file reads, and the two ownership markers
    [AddPolicyTemplate] sets. *)
Record PolicyTemplate := mkPolicyTemplate {
  pt_Key : string;
  pt_Vars : list string;
  pt_Scope : list string;
  pt_ServiceRole : option ServiceRole;
  pt_container : option ptr;
  pt_amper : option ptr
}.

Record Attachment := mkAttachment {
  a_pt : PolicyTemplate;
  a_account : Account;
  a_vars : gmap string string
}.

(** The registry ([Kernel]): its two name maps. The lock is not modelled. *)
Record Kernel := mkKernel {
  policyTemplates : gmap string PolicyTemplate;
  accounts : gmap string Account
}.

(** A container; [c_self] is its own address, [c_amper] the address of the
    registry it belongs to, whose state is passed next to it. *)
Record Container := mkContainer {
  c_self : ptr;
  c_amper : ptr;
  ID : string;
  attachments : list Attachment
}.

Record Policy := mkPolicy {
  p_amper : ptr;
  AccountPolicies : gmap string (list IAMPolicyDoc);
  AccountRolePolicies : gmap string (list IAMPolicyDoc);
  ServiceRolePolicies : gmap string (gmap string ServiceRolePolicy)
}.

(** ** Results, and a trace of the calls on collaborators *)

Inductive result (A : Type) : Type :=
| Ok (a : A)
| Err (e : error).
Arguments Ok {A} a.
Arguments Err {A} e.

Inductive Event :=
| EvRenderTemplate (a : Attachment)
| EvRenderServiceRole (a : Attachment)
| EvRenderServiceAssumeRole (a : Attachment)
| EvPrintf (msg : string)
| EvCompress (p : Policy).

(** A computation: the calls it made, in order, and how it ended. *)
Definition M (A : Type) : Type := (list Event * result A)%type.

Definition ret {A} (a : A) : M A := ([], Ok a).
Definition fail {A} (e : error) : M A := ([], Err e).
Definition emit (ev : Event) : M unit := ([ev], Ok tt).
Definition call {A} (ev : Event) (r : result A) : M A := ([ev], r).

Definition bind {A B} (m : M A) (f : A → M B) : M B :=
  match m with
  | (t, Err e) => (t, Err e)
  | (t, Ok a) => let '(t', r) := f a in (t ++ t', r)
  end.

Notation "'let*' x ':=' m 'in' k" := (bind m (λ x, k))
  (at level 10, x name, m at level 100, k at level 200).
Notation "'do' m 'then' k" := (bind m (λ _, k))
  (at level 10, m at level 100, k at level 200).

(** [for _, x := range l { st = body(st, x) }] with early [return] on error. *)
Fixpoint foldM {S A} (body : S → A → M S) (st : S) (l : list A) : M S :=
  match l with
  | [] => ret st
  | x :: l' => let* st' := body st x in foldM body st' l'
  end.

(** ** [AddPolicyTemplate] (lines 29-47) *)

Definition AddPolicyTemplate (c : Container) (k : Kernel) (pt : PolicyTemplate)
  : Kernel * PolicyTemplate * option error :=
  if decide (is_Some (policyTemplates k !! pt_Key pt)) then
    (k, pt, Some ("policy template '" +:+ pt_Key pt +:+ "' already exists"))
  else if decide (pt_container pt ≠ None ∨ pt_amper pt ≠ None) then
    (k, pt, Some ("policy '" +:+ pt_Key pt +:+ "' is in unknown state"))
  else
    let pt' := mkPolicyTemplate (pt_Key pt) (pt_Vars pt) (pt_Scope pt)
                 (pt_ServiceRole pt) (Some (c_self c)) (Some (c_amper c)) in
    (mkKernel (<[pt_Key pt := pt']> (policyTemplates k)) (accounts k), pt', None).

(** ** [AddAttachment] (lines 49-83) *)

(** The loop of lines 68-72: the first required name that is not a key of
    [vars], if any. *)
Fixpoint first_unset (names : list string) (vars : gmap string string)
  : option string :=
  match names with
  | [] => None
  | varName :: rest =>
      match vars !! varName with
      | None => Some varName
      | Some _ => first_unset rest vars
      end
  end.

Definition AddAttachment (c : Container) (k : Kernel)
    (policyTemplateID accountName : string) (vars : gmap string string)
  : Container * result Attachment :=
  match policyTemplates k !! policyTemplateID with
  | None =>
      (c, Err ("cannot add attachment, unknown policy template '"
               +:+ policyTemplateID +:+ "' in container '" +:+ ID c +:+ "'"))
  | Some pt =>
      match accounts k !! accountName with
      | None =>
          (c, Err ("cannot add attachment, unknown account '"
                   +:+ accountName +:+ "' in container '" +:+ ID c +:+ "'"))
      | Some account =>
          match first_unset (pt_Vars pt) vars with
          | Some varName =>
              (c, Err ("cannot add attachment, variable '" +:+ varName
                       +:+ "' is not set in container '" +:+ ID c +:+ "'"))
          | None =>
              let attachment := mkAttachment pt account vars in
              (mkContainer (c_self c) (c_amper c) (ID c)
                 (attachments c ++ [attachment]),
               Ok attachment)
          end
      end
  end.

(** ** [Policy] (lines 85-210) *)

(** The four local maps and the named result [missing] during the first loop. *)
Record LoopState := mkLoopState {
  accountPolicies : gmap string (list IAMPolicyDoc);
  serviceRolePolicies : gmap string (gmap string ServiceRolePolicy);
  scopeMap : gmap string (gset string);
  missing : list Attachment
}.

(** [m[k] = append(m[k], d)]; reading an absent key gives the nil slice. *)
Definition append_doc (m : gmap string (list IAMPolicyDoc)) (k : string)
    (d : IAMPolicyDoc) : gmap string (list IAMPolicyDoc) :=
  <[k := default [] (m !! k) ++ [d]]> m.

(** [if m[k] == nil { m[k] = make(...) }] *)
Definition ensure {V} (m : gmap string V) (k : string) (empty : V)
  : gmap string V :=
  match m !! k with
  | None => <[k := empty]> m
  | Some _ => m
  end.

(** The line feed that ends the message of line 118. *)
Definition newline : string := String (Ascii.ascii_of_nat 10) EmptyString.

Definition emptyDoc : IAMPolicyDoc := mkDoc "" [].

Definition allowAll : IAMPolicyStatement :=
  mkStatement "AllowAll" "Allow" ["*"] [] ["*"].

Definition denyAll : IAMPolicyStatement :=
  mkStatement "DenyAll" "Deny" ["*"] [] ["*"].

Definition denyUnknownServices (scopes : list string) : IAMPolicyStatement :=
  mkStatement "DenyUnknownServices" "Deny" [] scopes ["*"].

(** [sort.Sort(sort.StringSlice(scopes))]: ascending byte-wise order. *)
Definition sort_strings (l : list string) : list string :=
  merge_sort String.le l.

(** ** The collaborators [Policy] calls *)

(** Declared outside this file: the supported policy-document version, the
    three rendering methods of a policy template, and [p.compress()]. The
    last one is called on a pointer: its first component is the aggregate as
    the call leaves it, its second the error it returns. *)
Class Collaborators := {
  IAMPolicyVersion : string;
  renderTemplate :
    PolicyTemplate → Container → Account → gmap string string →
    result (option IAMPolicyDoc);
  renderServiceRole :
    PolicyTemplate → Container → Account → gmap string string →
    result (option IAMPolicyDoc);
  renderServiceAssumeRole :
    PolicyTemplate → Container → Account → gmap string string →
    result (option IAMPolicyDoc);
  compress : Policy → Policy * option error
}.

(** Go leaves the order of [range] over a map unspecified. An order for the
    two map loops of [Policy]: each visits every entry exactly once. *)
Class MapOrder := {
  range_scopeMap : gmap string (gset string) → list (string * gset string);
  range_scope : gset string → list string;
  range_scopeMap_perm : ∀ m, range_scopeMap m ≡ₚ map_to_list m;
  range_scope_perm : ∀ po, range_scope po ≡ₚ elements po
}.

Section Composer.
Context {E : Collaborators} {O : MapOrder}.

(** Lines 134-150. *)
Definition service_role_step (c : Container) (a : Attachment)
    (srps : gmap string (gmap string ServiceRolePolicy))
  : M (gmap string (gmap string ServiceRolePolicy)) :=
  match pt_ServiceRole (a_pt a) with
  | None => ret srps
  | Some sr =>
      let* pol := call (EvRenderServiceRole a)
                    (renderServiceRole (a_pt a) c (a_account a) (a_vars a)) in
      let* assume := call (EvRenderServiceAssumeRole a)
                    (renderServiceAssumeRole (a_pt a) c (a_account a) (a_vars a)) in
      ret (alter (insert (sr_Name sr) (mkServiceRolePolicy pol assume))
             (acc_Name (a_account a)) srps)
  end.

(** Lines 130-132; the account's set is present since line 112. *)
Definition add_scope (name : string) (sm : gmap string (gset string))
    (scope : list string) : gmap string (gset string) :=
  foldl (λ sm s, alter (λ po, {[s]} ∪ po) name sm) sm scope.

(** Lines 128-150: what happens to a rendered document that passed the
    version check. *)
Definition accept (c : Container) (st : LoopState) (a : Attachment)
    (pd : IAMPolicyDoc) : M LoopState :=
  let name := acc_Name (a_account a) in
  let aps := append_doc (accountPolicies st) name pd in
  let sm := add_scope name (ensure (scopeMap st) name ∅) (pt_Scope (a_pt a)) in
  let* srps := service_role_step c a (ensure (serviceRolePolicies st) name ∅) in
  ret (mkLoopState aps srps sm (missing st)).

(** Lines 116-122. *)
Definition not_found (st : LoopState) (a : Attachment) : M LoopState :=
  let name := acc_Name (a_account a) in
  do emit (EvPrintf ("[WARN] Policy template '" +:+ pt_Key (a_pt a)
                     +:+ "' not found" +:+ newline)) then
  ret (mkLoopState (append_doc (accountPolicies st) name emptyDoc)
         (ensure (serviceRolePolicies st) name ∅)
         (ensure (scopeMap st) name ∅)
         (missing st ++ [a])).

(** The body of the loop over the attachments, lines 102-150. *)
Definition loop_body (c : Container) (st : LoopState) (a : Attachment)
  : M LoopState :=
  let* pd := call (EvRenderTemplate a)
               (renderTemplate (a_pt a) c (a_account a) (a_vars a)) in
  match pd with
  | None => not_found st a
  | Some pd =>
      if decide (Version pd ≠ "" ∧ Version pd ≠ IAMPolicyVersion) then
        fail ("Unsupported policy version '" +:+ Version pd +:+ "'")
      else accept c st a pd
  end.

Definition initial : LoopState := mkLoopState ∅ ∅ ∅ [].

(** The first loop, lines 101-151. *)
Definition run_loop (c : Container) : M LoopState :=
  foldM (loop_body c) initial (attachments c).

(** Lines 161-186. *)
Definition deny_statement (po : gset string) : IAMPolicyStatement :=
  if decide (size po = 0) then denyAll
  else denyUnknownServices (sort_strings (range_scope po)).

(** The body of the loop over [scopeMap], lines 161-198. Line 192 makes the
    role policies share the slice of the account policies; the [append] of
    line 195 writes past the length of that slice or into a fresh array, so
    the role policies keep the elements they had at line 192. *)
Definition finalize_account
    (maps : gmap string (list IAMPolicyDoc) * gmap string (list IAMPolicyDoc))
    (entry : string * gset string)
  : gmap string (list IAMPolicyDoc) * gmap string (list IAMPolicyDoc) :=
  let '(aps, arps) := maps in
  let '(account, po) := entry in
  let aps := append_doc aps account (mkDoc "" [deny_statement po]) in
  let arps := <[account := default [] (aps !! account)]> arps in
  let aps :=
    if decide (0 < size po)
    then append_doc aps account (mkDoc "" [allowAll])
    else aps in
  (aps, arps).

(** The entries the second loop appends for an account with scope [po]. *)
Definition closing (po : gset string) : list IAMPolicyDoc :=
  mkDoc "" [deny_statement po]
  :: (if decide (0 < size po) then [mkDoc "" [allowAll]] else []).

(** Lines 160-203: the aggregate built from the state the first loop left. *)
Definition aggregate (c : Container) (st : LoopState) : Policy :=
  let '(aps, arps) :=
    foldl finalize_account (accountPolicies st, ∅)
      (range_scopeMap (scopeMap st)) in
  mkPolicy (c_amper c) aps arps (serviceRolePolicies st).

(** The whole method with the trace of its calls. The three results are
    the policy pointer, the error and the missing attachments; [None] and
    the empty list are [nil]. *)
Definition Policy_run (c : Container)
  : list Event * (option Policy * option error * list Attachment) :=
  match run_loop c with
  | (t, Err e) => (t, (None, Some e, []))
  | (t, Ok st) =>
      let p := aggregate c st in
      match compress p with
      | (_, Some e) => (t ++ [EvCompress p], (None, Some e, missing st))
      | (p', None) => (t ++ [EvCompress p], (Some p', None, missing st))
      end
  end.

Definition Container_Policy (c : Container)
  : option Policy * option error * list Attachment :=
  snd (Policy_run c).

Definition Policy_trace (c : Container) : list Event := fst (Policy_run c).

(** ** Vocabulary of the statements about [Policy] *)

(** [compress] reports success only on an aggregate it leaves as it is. *)
Definition compress_transparent : Prop :=
  ∀ p p', compress p = (p', None) → p' = p.

(** The scope set of an account when the first loop has ended. *)
Definition final_scope (c : Container) (acct : string)
  : option (gset string) :=
  match run_loop c with
  | (_, Ok st) => scopeMap st !! acct
  | (_, Err _) => None
  end.

Definition rendered (c : Container) (a : Attachment)
  : result (option IAMPolicyDoc) :=
  renderTemplate (a_pt a) c (a_account a) (a_vars a).

Definition on_account (acct : string) (a : Attachment) : Prop :=
  acc_Name (a_account a) = acct.

#[global] Instance on_account_dec acct a : Decision (on_account acct a).
Proof. unfold on_account. apply _. Defined.

Definition is_absent (c : Container) (a : Attachment) : bool :=
  match rendered c a with Ok None => true | _ => false end.

Definition is_present (c : Container) (a : Attachment) : bool :=
  match rendered c a with Ok (Some _) => true | _ => false end.

(** The entry an attachment contributes to its account's list. *)
Definition doc_of (c : Container) (a : Attachment) : IAMPolicyDoc :=
  match rendered c a with Ok (Some pd) => pd | _ => emptyDoc end.

Definition account_docs (c : Container) (acct : string)
    (l : list Attachment) : list IAMPolicyDoc :=
  doc_of c <$> filter (on_account acct) l.

Definition scope_of (c : Container) (a : Attachment) : gset string :=
  if is_present c a then list_to_set (pt_Scope (a_pt a)) else ∅.

Definition account_scope (c : Container) (acct : string)
    (l : list Attachment) : gset string :=
  ⋃ (scope_of c <$> filter (on_account acct) l).

Definition accounts_of (l : list Attachment) : gset string :=
  list_to_set ((λ a, acc_Name (a_account a)) <$> l).

Definition missing_of (c : Container) (l : list Attachment)
  : list Attachment :=
  filter (λ a, is_absent c a) l.

(** The pair an attachment stores under [(acct, role)], if it stores one. *)
Definition stores (c : Container) (acct role : string) (a : Attachment)
  : Prop :=
  acc_Name (a_account a) = acct ∧ is_present c a = true ∧
  sr_Name <$> pt_ServiceRole (a_pt a) = Some role.

#[global] Instance stores_dec c acct role a : Decision (stores c acct role a).
Proof. unfold stores. apply _. Defined.

Definition service_pair (c : Container) (a : Attachment)
  : option ServiceRolePolicy :=
  match renderServiceRole (a_pt a) c (a_account a) (a_vars a),
        renderServiceAssumeRole (a_pt a) c (a_account a) (a_vars a) with
  | Ok pol, Ok assume => Some (mkServiceRolePolicy pol assume)
  | _, _ => None
  end.

(** The effect of lines 134-150 of a turn of the loop that ends well. *)
Definition store_pair (c : Container) (a : Attachment)
    (srps : gmap string (gmap string ServiceRolePolicy))
  : gmap string (gmap string ServiceRolePolicy) :=
  match pt_ServiceRole (a_pt a), is_present c a, service_pair c a with
  | Some sr, true, Some srp =>
      alter (insert (sr_Name sr) srp) (acc_Name (a_account a)) srps
  | _, _, _ => srps
  end.

Definition service_pairs (c : Container) (acct role : string)
    (l : list Attachment) : list ServiceRolePolicy :=
  omap (service_pair c) (filter (stores c acct role) l).

(** The calls one attachment causes when the loop gets past it. *)
Definition events_of (c : Container) (a : Attachment) : list Event :=
  EvRenderTemplate a ::
  match rendered c a with
  | Ok (Some _) =>
      match pt_ServiceRole (a_pt a) with
      | Some _ => [EvRenderServiceRole a; EvRenderServiceAssumeRole a]
      | None => []
      end
  | _ => [EvPrintf ("[WARN] Policy template '" +:+ pt_Key (a_pt a)
                    +:+ "' not found" +:+ newline)]
  end.

(** What the first loop has built after the attachments [l]. *)
Record loop_inv (c : Container) (l : list Attachment) (t : list Event)
    (st : LoopState) : Prop := mk_loop_inv {
  inv_dom_ap : dom (accountPolicies st) = accounts_of l;
  inv_dom_sm : dom (scopeMap st) = accounts_of l;
  inv_dom_srp : dom (serviceRolePolicies st) = accounts_of l;
  inv_docs : ∀ acct,
    default [] (accountPolicies st !! acct) = account_docs c acct l;
  inv_scope : ∀ acct,
    default ∅ (scopeMap st !! acct) = account_scope c acct l;
  inv_missing : missing st = missing_of c l;
  inv_srp : ∀ acct role,
    serviceRolePolicies st !! acct ≫= (.!! role)
    = last (service_pairs c acct role l);
  inv_trace : t = l ≫= events_of c
}.

Definition is_render_event (ev : Event) : bool :=
  match ev with
  | EvRenderTemplate _ | EvRenderServiceRole _
  | EvRenderServiceAssumeRole _ => true
  | _ => false
  end.

End Composer.

(** ** Properties of an output *)

(** [l1] is a strict prefix of [l2]. *)
Definition strict_prefix {A} (l1 l2 : list A) : Prop :=
  ∃ k, k ≠ [] ∧ l2 = l1 ++ k.

(** Every account of the output has its role policies a strict prefix of its
    policies. *)
Definition role_policies_strict_prefix (p : Policy) : Prop :=
  ∀ acct ap, AccountPolicies p !! acct = Some ap →
    ∃ arp, AccountRolePolicies p !! acct = Some arp ∧ strict_prefix arp ap.

(** Some document of the list carries the allow-everything statement. *)
Definition has_allow_everything (l : list IAMPolicyDoc) : Prop :=
  ∃ d, d ∈ l ∧ allowAll ∈ Statements d.

(** Every attachment whose template declares a service role had both role
    documents rendered, and its account's bucket has an entry under the
    role's name. *)
Definition every_service_role_stored (c : Container) (trace : list Event)
    (p : Policy) : Prop :=
  ∀ a sr, a ∈ attachments c → pt_ServiceRole (a_pt a) = Some sr →
    EvRenderServiceRole a ∈ trace ∧ EvRenderServiceAssumeRole a ∈ trace ∧
    is_Some (ServiceRolePolicies p !! acc_Name (a_account a)
               ≫= (.!! sr_Name sr)).

(** ** [Attachment.String] (lines 15-17) *)

Definition Attachment_String (a : Attachment) : string := pt_Key (a_pt a).

(** ** Invariants of a registry and of its containers *)

(** Every template of the registry is stored under its own key. *)
Definition registry_keyed (k : Kernel) : Prop :=
  map_Forall (λ key pt, pt_Key pt = key) (policyTemplates k).

(** Every template of the registry carries both ownership markers. *)
Definition registry_owned (k : Kernel) : Prop :=
  map_Forall (λ _ pt, pt_container pt ≠ None ∧ pt_amper pt ≠ None)
    (policyTemplates k).

(** The attachment binds every variable its template requires. *)
Definition attachment_bound (a : Attachment) : Prop :=
  ∀ v, v ∈ pt_Vars (a_pt a) → is_Some (a_vars a !! v).

(** The template and the account of the attachment are in the registry. *)
Definition attachment_registered (k : Kernel) (a : Attachment) : Prop :=
  (∃ key, policyTemplates k !! key = Some (a_pt a)) ∧
  (∃ name, accounts k !! name = Some (a_account a)).

Definition container_wf (k : Kernel) (c : Container) : Prop :=
  Forall (λ a, attachment_bound a ∧ attachment_registered k a)
    (attachments c).

(** ** Reading a trace *)

(** The attachment a call of the template's render was made for. *)
Definition rendered_attachment (ev : Event) : option Attachment :=
  match ev with
  | EvRenderTemplate a => Some a
  | _ => None
  end.

Definition is_compress_event (ev : Event) : bool :=
  match ev with
  | EvCompress _ => true
  | _ => false
  end.

(** ** Concrete registry, containers and collaborators *)

Module Demo.

Definition version : string := "2012-10-17".

Definition acctA : Account := mkAccount "A".
Definition acctB : Account := mkAccount "B".

(** Templates as they are once registered by container 1 of registry 0. *)
Definition template (key : string) (vars scope : list string)
    (role : option ServiceRole) : PolicyTemplate :=
  mkPolicyTemplate key vars scope role (Some 1) (Some 0).

Definition T1 := template "T1" [] ["s3:*"] None.
Definition T2 := template "T2" ["Bucket"] ["ec2:*"] None.
Definition Tworker := template "Tworker" [] ["sqs:*"] (Some (mkServiceRole "worker")).
Definition Tworker2 := template "Tworker2" [] ["sns:*"] (Some (mkServiceRole "worker")).
Definition Tabsent := template "Tabsent" [] ["iam:*"] (Some (mkServiceRole "worker")).
Definition Tallow := template "Tallow" [] [] None.
Definition Told := template "Told" [] ["s3:*"] None.
Definition Tnoversion := template "Tnoversion" [] ["s3:*"] None.
Definition Tbroken := template "Tbroken" [] ["s3:*"] None.
Definition Tbadrole := template "Tbadrole" [] ["s3:*"] (Some (mkServiceRole "worker")).

(** A template with the key "fresh" that carries the markers of another
    container and registry. *)
Definition stale : PolicyTemplate :=
  mkPolicyTemplate "fresh" [] [] None (Some 7) (Some 9).

(** A template nobody has registered yet. *)
Definition fresh : PolicyTemplate :=
  mkPolicyTemplate "fresh" ["Bucket"; "Region"] ["s3:*"] None None None.

Definition kernel0 : Kernel :=
  mkKernel (list_to_map [("T1", T1); ("T2", T2)])
           (list_to_map [("A", acctA); ("B", acctB)]).

Definition empty_container : Container := mkContainer 1 0 "c1" [].

Definition doc_for (pt : PolicyTemplate) : IAMPolicyDoc :=
  mkDoc version [mkStatement (pt_Key pt) "Allow" (pt_Scope pt) [] ["*"]].

Definition render (pt : PolicyTemplate) (c : Container) (a : Account)
    (vars : gmap string string) : result (option IAMPolicyDoc) :=
  if decide (pt_Key pt = "Tabsent") then Ok None
  else if decide (pt_Key pt = "Tbroken") then Err "render failed"
  else if decide (pt_Key pt = "Told") then Ok (Some (mkDoc "2008-10-17" []))
  else if decide (pt_Key pt = "Tnoversion") then Ok (Some (mkDoc "" []))
  else if decide (pt_Key pt = "Tallow") then Ok (Some (mkDoc version [allowAll]))
  else Ok (Some (doc_for pt)).

Definition render_role (pt : PolicyTemplate) (c : Container) (a : Account)
    (vars : gmap string string) : result (option IAMPolicyDoc) :=
  if decide (pt_Key pt = "Tbadrole") then Err "role failed"
  else Ok (Some (mkDoc version
                   [mkStatement ("role-" +:+ pt_Key pt) "Allow" (pt_Scope pt) [] ["*"]])).

Definition render_assume (pt : PolicyTemplate) (c : Container) (a : Account)
    (vars : gmap string string) : result (option IAMPolicyDoc) :=
  Ok (Some (mkDoc version
              [mkStatement ("assume-" +:+ pt_Key pt) "Allow" ["sts:AssumeRole"] [] []])).

(** A compression step that accepts every aggregate as it is. *)
Definition collaborators : Collaborators :=
  Build_Collaborators version render render_role render_assume (λ p, (p, None)).

(** A compression step that rejects every aggregate. *)
Definition rejecting : Collaborators :=
  Build_Collaborators version render render_role render_assume
    (λ p, (p, Some "policy too large")).

(** Two iteration orders: the one of [gmap], and its reverse. *)
Definition forwards : MapOrder :=
  Build_MapOrder map_to_list elements
    (λ _, reflexivity _) (λ _, reflexivity _).

Definition backwards : MapOrder :=
  Build_MapOrder (λ m, reverse (map_to_list m)) (λ po, reverse (elements po))
    (λ m, reverse_Permutation (map_to_list m))
    (λ po, reverse_Permutation (elements po)).

Definition attach (pt : PolicyTemplate) (a : Account)
    (vars : list (string * string)) : Attachment :=
  mkAttachment pt a (list_to_map vars).

Definition container_of (l : list Attachment) : Container :=
  mkContainer 1 0 "c1" l.

(** [T1] then [T2] on account "A". *)
Definition scenario : Container :=
  container_of [attach T1 acctA []; attach T2 acctA [("Bucket", "x")]].

(** One attachment, on account "B", whose template renders to nothing. *)
Definition only_absent : Container :=
  container_of [attach Tabsent acctB []].

(** One attachment of a template without scope that renders the
    allow-everything statement. *)
Definition only_allow : Container :=
  container_of [attach Tallow acctA []].

(** An absent render on "B" between two attachments on "A". *)
Definition absent_between : Container :=
  container_of [attach T1 acctA []; attach Tabsent acctB [];
                attach T2 acctA [("Bucket", "x")]].

(** An absent render, then a document of an old version. *)
Definition old_version : Container :=
  container_of [attach Tabsent acctB []; attach Told acctA [];
                attach T1 acctA []].

(** A document without version. *)
Definition no_version : Container :=
  container_of [attach T1 acctA []; attach Tnoversion acctA []].

(** An absent render, then a template whose render fails. *)
Definition broken_render : Container :=
  container_of [attach Tabsent acctB []; attach Tbroken acctA []].

(** An absent render, then a template whose role policy fails to render. *)
Definition broken_role : Container :=
  container_of [attach Tabsent acctB []; attach Tbadrole acctA []].

(** Two templates with the service role "worker" on account "A", and one on
    account "B" whose render is absent. *)
Definition two_workers : Container :=
  container_of [attach Tworker acctA []; attach Tabsent acctB [];
                attach Tworker2 acctA []].

Definition Policy_of (c : Container)
  : option Policy * option error * list Attachment :=
  Container_Policy (E:=collaborators) (O:=forwards) c.

Definition loop_on (c : Container) (l : list Attachment) : M LoopState :=
  foldM (loop_body (E:=collaborators) c) initial l.

End Demo.

(** * Theorems *)

(** ** The registry: [AddPolicyTemplate] *)

Lemma AddPolicyTemplate_duplicate c k pt :
  is_Some (policyTemplates k !! pt_Key pt) →
  AddPolicyTemplate c k pt
  = (k, pt, Some ("policy template '" +:+ pt_Key pt +:+ "' already exists")).
Proof. intros Hk. unfold AddPolicyTemplate. by rewrite decide_True. Qed.

Lemma AddPolicyTemplate_owned c k pt :
  policyTemplates k !! pt_Key pt = None →
  pt_container pt ≠ None ∨ pt_amper pt ≠ None →
  AddPolicyTemplate c k pt
  = (k, pt, Some ("policy '" +:+ pt_Key pt +:+ "' is in unknown state")).
Proof.
  intros Hk Hown. unfold AddPolicyTemplate.
  rewrite decide_False; [|rewrite Hk; by intros [? ?]].
  by rewrite decide_True.
Qed.

Lemma AddPolicyTemplate_fresh c k pt :
  policyTemplates k !! pt_Key pt = None →
  pt_container pt = None → pt_amper pt = None →
  AddPolicyTemplate c k pt
  = let pt' := mkPolicyTemplate (pt_Key pt) (pt_Vars pt) (pt_Scope pt)
                 (pt_ServiceRole pt) (Some (c_self c)) (Some (c_amper c)) in
    (mkKernel (<[pt_Key pt := pt']> (policyTemplates k)) (accounts k), pt', None).
Proof.
  intros Hk Hc Ha. unfold AddPolicyTemplate.
  rewrite decide_False; [|rewrite Hk; by intros [? ?]].
  rewrite decide_False; [done|]. rewrite Hc, Ha. by intros [?|?].
Qed.

(** C7 (amended). [AddPolicyTemplate] fails with the duplicate-key error
    when the key is already registered; otherwise it fails with the
    invalid-state error when the template carries a container or a registry
    marker; otherwise it stamps the template with its container and registry
    and inserts it. The set of registered templates grows by at most one per
    call and only on success. After a call that succeeded, or that found
    the key registered, or that was made with an unowned template, every
    further call with a template of the same key fails with the
    duplicate-key error; submitting the same template a second time fails
    whatever the first call did. *)
Theorem AddPolicyTemplate_spec c k pt k' pt' err :
  AddPolicyTemplate c k pt = (k', pt', err) →
  (is_Some (policyTemplates k !! pt_Key pt) →
     err = Some ("policy template '" +:+ pt_Key pt +:+ "' already exists")) ∧
  (policyTemplates k !! pt_Key pt = None →
   pt_container pt ≠ None ∨ pt_amper pt ≠ None →
     err = Some ("policy '" +:+ pt_Key pt +:+ "' is in unknown state")) ∧
  (policyTemplates k !! pt_Key pt = None →
   pt_container pt = None → pt_amper pt = None →
     err = None ∧
     pt' = mkPolicyTemplate (pt_Key pt) (pt_Vars pt) (pt_Scope pt)
             (pt_ServiceRole pt) (Some (c_self c)) (Some (c_amper c)) ∧
     policyTemplates k' = <[pt_Key pt := pt']> (policyTemplates k) ∧
     accounts k' = accounts k ∧
     size (policyTemplates k') = S (size (policyTemplates k))) ∧
  (err ≠ None → k' = k ∧ pt' = pt) ∧
  size (policyTemplates k') ≤ S (size (policyTemplates k)) ∧
  (err = None ∨ is_Some (policyTemplates k !! pt_Key pt)
   ∨ (pt_container pt = None ∧ pt_amper pt = None) →
   ∀ c2 pt2, pt_Key pt2 = pt_Key pt →
     AddPolicyTemplate c2 k' pt2
     = (k', pt2, Some ("policy template '" +:+ pt_Key pt +:+ "' already exists"))) ∧
  (∀ c2, ∃ e, AddPolicyTemplate c2 k' pt' = (k', pt', Some e)).
Proof.
  intros Hrun.
  destruct (policyTemplates k !! pt_Key pt) as [old|] eqn:Hk.
  - rewrite AddPolicyTemplate_duplicate in Hrun by (rewrite Hk; eauto).
    simplify_eq. split_and!; try done; try lia.
    + intros _ c2 pt2 Hkey. rewrite <- Hkey.
      apply AddPolicyTemplate_duplicate. rewrite Hkey, Hk. eauto.
    + intros c2. eexists. apply AddPolicyTemplate_duplicate. rewrite Hk; eauto.
  - destruct (decide (pt_container pt ≠ None ∨ pt_amper pt ≠ None)) as [Hown|Hfree].
    + rewrite AddPolicyTemplate_owned in Hrun by done.
      simplify_eq. split_and!; try done; try lia.
      * intros _ Hc Ha. rewrite Hc, Ha in Hown. by destruct Hown.
      * intros [?|[[? ?]|[Hc Ha]]]; [done..|].
        rewrite Hc, Ha in Hown. by destruct Hown.
      * intros c2. eexists. by apply AddPolicyTemplate_owned.
    + assert (pt_container pt = None ∧ pt_amper pt = None) as [Hc Ha].
      { split; apply dec_stable; intros ?; apply Hfree; auto. }
      rewrite AddPolicyTemplate_fresh in Hrun by done.
      cbv zeta in Hrun. simplify_eq. cbn.
      split_and!; try done.
      * intros _ _ _. split_and!; try done. by rewrite map_size_insert_None.
      * rewrite map_size_insert_None by done. lia.
      * intros _ c2 pt2 Hkey. rewrite <- Hkey.
        apply AddPolicyTemplate_duplicate. cbn.
        rewrite Hkey, lookup_insert_eq. eauto.
      * intros c2. eexists. apply AddPolicyTemplate_duplicate. cbn.
        rewrite lookup_insert_eq. eauto.
Qed.

(** Registering [Demo.fresh] succeeds and adds one template to the two of
    [Demo.kernel0]; whoever submits the key again is refused. *)
Lemma AddPolicyTemplate_spec_witness :
  ∃ k' pt',
    AddPolicyTemplate Demo.empty_container Demo.kernel0 Demo.fresh
    = (k', pt', None) ∧
    size (policyTemplates k') = 3 ∧
    pt_container pt' = Some 1 ∧ pt_amper pt' = Some 0 ∧
    ∀ c2 pt2, pt_Key pt2 = "fresh" →
      AddPolicyTemplate c2 k' pt2
      = (k', pt2, Some "policy template 'fresh' already exists").
Proof.
  eexists _, _. split; [reflexivity|].
  destruct (AddPolicyTemplate_spec Demo.empty_container Demo.kernel0
              Demo.fresh _ _ _ eq_refl)
    as (_ & _ & Hfresh & _ & _ & Hagain & _).
  destruct (Hfresh eq_refl eq_refl eq_refl) as (_ & _ & _ & _ & Hsize).
  split; [exact Hsize|]. split; [reflexivity|]. split; [reflexivity|].
  exact (Hagain (or_introl eq_refl)).
Defined.

(** C7 as stated fails after a call that is refused for invalid state:
    [Demo.stale] carries markers and its key "fresh" is free, so the first
    call fails and registers nothing; the second call, with the unowned
    [Demo.fresh] of the same key, succeeds. *)
Lemma AddPolicyTemplate_second_call_succeeds :
  pt_Key Demo.stale = pt_Key Demo.fresh ∧
  AddPolicyTemplate Demo.empty_container Demo.kernel0 Demo.stale
  = (Demo.kernel0, Demo.stale, Some "policy 'fresh' is in unknown state") ∧
  ∃ k' pt',
    AddPolicyTemplate Demo.empty_container Demo.kernel0 Demo.fresh
    = (k', pt', None) ∧
    policyTemplates k' !! "fresh" = Some pt'.
Proof.
  split; [reflexivity|]. split; [reflexivity|].
  eexists _, _. split; reflexivity.
Qed.

(** ** The container: [AddAttachment] *)

Lemma first_unset_None names (vars : gmap string string) :
  first_unset names vars = None ↔ ∀ v, v ∈ names → is_Some (vars !! v).
Proof.
  induction names as [|n names IH]; cbn.
  - split; [|done]. intros _ v Hv. by apply elem_of_nil in Hv.
  - destruct (vars !! n) as [x|] eqn:Hn.
    + rewrite IH. split.
      * intros Hall v [->|Hv]%elem_of_cons; [rewrite Hn; eauto | auto].
      * intros Hall v Hv. apply Hall. by right.
    + split; [done|]. intros Hall.
      destruct (Hall n) as [x Hx]; [by left|]. congruence.
Qed.

Lemma first_unset_Some names (vars : gmap string string) w :
  first_unset names vars = Some w ↔
  ∃ pre post, names = pre ++ w :: post ∧
    (∀ u, u ∈ pre → is_Some (vars !! u)) ∧ vars !! w = None.
Proof.
  induction names as [|n names IH]; cbn.
  - split; [done|]. intros (pre & post & Heq & _). by destruct pre.
  - destruct (vars !! n) as [x|] eqn:Hn.
    + rewrite IH. split.
      * intros (pre & post & -> & Hpre & Hw).
        exists (n :: pre), post. split_and!; [done| |done].
        intros u [->|Hu]%elem_of_cons; [rewrite Hn; eauto | auto].
      * intros (pre & post & Heq & Hpre & Hw).
        destruct pre as [|p pre]; simplify_eq/=.
        exists pre, post. split_and!; [done| |done].
        intros u Hu. apply Hpre. by right.
    + split.
      * intros [= <-]. exists [], names. split_and!; [done| |done].
        intros u Hu. by apply elem_of_nil in Hu.
      * intros (pre & post & Heq & Hpre & Hw).
        destruct pre as [|p pre]; simplify_eq/=; [done|].
        destruct (Hpre p) as [x Hx]; [by left|]. congruence.
Qed.

(** C6. [AddAttachment] looks up the template and the account, then checks
    that every required variable name of the template is a key of [vars]
    (other keys are allowed). When a required name is absent it fails with
    the missing-variable error that names the first absent one in the order
    of the template's list. On each of the three failure paths the container,
    and so its attachment list, is as before; on success exactly one
    attachment, the one returned, is appended. *)
Theorem AddAttachment_spec c k policyTemplateID accountName vars c' r :
  AddAttachment c k policyTemplateID accountName vars = (c', r) →
  (∀ e, r = Err e → c' = c) ∧
  (policyTemplates k !! policyTemplateID = None →
     r = Err ("cannot add attachment, unknown policy template '"
              +:+ policyTemplateID +:+ "' in container '" +:+ ID c +:+ "'")) ∧
  (∀ pt, policyTemplates k !! policyTemplateID = Some pt →
     accounts k !! accountName = None →
     r = Err ("cannot add attachment, unknown account '"
              +:+ accountName +:+ "' in container '" +:+ ID c +:+ "'")) ∧
  (∀ pt account,
     policyTemplates k !! policyTemplateID = Some pt →
     accounts k !! accountName = Some account →
     ((∀ v, v ∈ pt_Vars pt → is_Some (vars !! v)) →
        r = Ok (mkAttachment pt account vars) ∧
        attachments c' = attachments c ++ [mkAttachment pt account vars] ∧
        length (attachments c') = S (length (attachments c)) ∧
        c_self c' = c_self c ∧ c_amper c' = c_amper c ∧ ID c' = ID c) ∧
     (∀ v, v ∈ pt_Vars pt → vars !! v = None →
        ∃ pre w post, pt_Vars pt = pre ++ w :: post ∧
          (∀ u, u ∈ pre → is_Some (vars !! u)) ∧ vars !! w = None ∧
          r = Err ("cannot add attachment, variable '" +:+ w
                   +:+ "' is not set in container '" +:+ ID c +:+ "'") ∧
          attachments c' = attachments c)).
Proof.
  unfold AddAttachment. intros Hrun.
  destruct (policyTemplates k !! policyTemplateID) as [pt|] eqn:Hpt.
  2: { simplify_eq. split_and!; try done. }
  destruct (accounts k !! accountName) as [account|] eqn:Hacc.
  2: { simplify_eq. split_and!; try done. }
  destruct (first_unset (pt_Vars pt) vars) as [w|] eqn:Hw.
  - simplify_eq. split_and!; try done.
    intros pt' account' [= <-] [= <-]. split.
    + intros Hall%first_unset_None. congruence.
    + intros _ _ _.
      apply first_unset_Some in Hw as (pre & post & Heq & Hpre & Hnone).
      by exists pre, w, post.
  - simplify_eq. split_and!; try done.
    intros pt' account' [= <-] [= <-]. split.
    + intros _. cbn. split_and!; try done.
      rewrite length_app. cbn. lia.
    + intros v Hv Hnone.
      destruct (proj1 (first_unset_None _ _) Hw v Hv) as [x Hx]. congruence.
Qed.

(** [Demo.T2] requires "Bucket": attaching it to account "A" with that name
    bound (and one more) appends the attachment; with it unbound the call is
    refused and names "Bucket". *)
Lemma AddAttachment_spec_witness :
  (∃ c', AddAttachment Demo.empty_container Demo.kernel0 "T2" "A"
           (list_to_map [("Bucket", "x"); ("Extra", "y")])
         = (c', Ok (Demo.attach Demo.T2 Demo.acctA [("Bucket", "x"); ("Extra", "y")]))
         ∧ length (attachments c') = 1) ∧
  AddAttachment Demo.empty_container Demo.kernel0 "T2" "A"
    (list_to_map [("Region", "eu")])
  = (Demo.empty_container,
     Err "cannot add attachment, variable 'Bucket' is not set in container 'c1'").
Proof.
  split.
  - exists (Demo.container_of
              [Demo.attach Demo.T2 Demo.acctA [("Bucket", "x"); ("Extra", "y")]]).
    assert (AddAttachment Demo.empty_container Demo.kernel0 "T2" "A"
              (list_to_map [("Bucket", "x"); ("Extra", "y")])
            = (Demo.container_of
                 [Demo.attach Demo.T2 Demo.acctA [("Bucket", "x"); ("Extra", "y")]],
               Ok (Demo.attach Demo.T2 Demo.acctA [("Bucket", "x"); ("Extra", "y")])))
      as Hrun by reflexivity.
    split; [exact Hrun|].
    destruct (AddAttachment_spec _ _ _ _ _ _ _ Hrun) as (_ & _ & _ & Hknown).
    destruct (Hknown Demo.T2 Demo.acctA eq_refl eq_refl) as [Hok _].
    destruct Hok as (_ & _ & Hlen & _); [|exact Hlen].
    intros v Hv. apply list_elem_of_singleton in Hv as ->. by eexists.
  - assert (∃ e, AddAttachment Demo.empty_container Demo.kernel0 "T2" "A"
                   (list_to_map [("Region", "eu")])
                 = (Demo.empty_container, Err e)) as [e Hrun]
      by (eexists; reflexivity).
    destruct (AddAttachment_spec _ _ _ _ _ _ _ Hrun) as (_ & _ & _ & Hknown).
    destruct (Hknown Demo.T2 Demo.acctA eq_refl eq_refl) as [_ Hbad].
    destruct (Hbad "Bucket") as (pre & w & post & Hsplit & _ & _ & Herr & _).
    { by apply list_elem_of_singleton. }
    { reflexivity. }
    destruct pre as [|? [|? ?]]; simplify_eq/=. exact Hrun.
Defined.

(** ** Computations with a trace *)

Lemma M_bind_ret {A B} (a : A) (f : A → M B) : bind (ret a) f = f a.
Proof. unfold bind, ret. by destruct (f a). Qed.

Lemma M_bind_Ok {A B} (m : M A) (f : A → M B) t b :
  bind m f = (t, Ok b) ↔
  ∃ t1 a t2, m = (t1, Ok a) ∧ f a = (t2, Ok b) ∧ t = t1 ++ t2.
Proof.
  unfold bind. destruct m as [t1 [a|e]].
  - destruct (f a) as [t2 r] eqn:Hf. split.
    + intros [= <- ->]. by exists t1, a, t2.
    + intros (? & ? & ? & [= <- <-] & Hfa & ->). congruence.
  - split; [done|]. by intros (? & ? & ? & ? & _).
Qed.

Lemma M_bind_Err {A B} (m : M A) (f : A → M B) t e :
  bind m f = (t, Err e) ↔
  m = (t, Err e) ∨
  ∃ t1 a t2, m = (t1, Ok a) ∧ f a = (t2, Err e) ∧ t = t1 ++ t2.
Proof.
  unfold bind. destruct m as [t1 [a|e1]].
  - destruct (f a) as [t2 r] eqn:Hf. split.
    + intros [= <- ->]. right. by exists t1, a, t2.
    + intros [?|(? & ? & ? & [= <- <-] & Hfa & ->)]; [done|congruence].
  - split.
    + intros [= -> ->]. by left.
    + intros [[= -> ->]|(? & ? & ? & ? & _)]; [done|congruence].
Qed.

Lemma M_bind_assoc {A B C} (m : M A) (f : A → M B) (g : B → M C) :
  bind (bind m f) g = bind m (λ a, bind (f a) g).
Proof.
  unfold bind. destruct m as [t1 [a|e]]; [|done].
  destruct (f a) as [t2 [b|e]]; [|done].
  destruct (g b) as [t3 r]. by rewrite (assoc_L (++)).
Qed.

Lemma foldM_app {S A} (body : S → A → M S) st (l1 l2 : list A) :
  foldM body st (l1 ++ l2)
  = bind (foldM body st l1) (λ st', foldM body st' l2).
Proof.
  revert st. induction l1 as [|x l1 IH]; intros st; cbn.
  - by destruct (foldM body st l2).
  - destruct (body st x) as [t [st'|e]]; cbn; [|done].
    rewrite IH. unfold bind.
    destruct (foldM body st' l1) as [t1 [s1|e1]]; [|done].
    destruct (foldM body s1 l2) as [t2 r]. by rewrite (assoc_L (++)).
Qed.

(** ** One turn of the loop over the attachments *)

Section LoopBody.
Context {E : Collaborators}.

Lemma service_role_step_cases c a srps :
  service_role_step c a srps
  = match pt_ServiceRole (a_pt a) with
    | None => ([], Ok srps)
    | Some sr =>
        match renderServiceRole (a_pt a) c (a_account a) (a_vars a) with
        | Err e => ([EvRenderServiceRole a], Err e)
        | Ok pol =>
            match renderServiceAssumeRole (a_pt a) c (a_account a) (a_vars a) with
            | Err e =>
                ([EvRenderServiceRole a; EvRenderServiceAssumeRole a], Err e)
            | Ok assume =>
                ([EvRenderServiceRole a; EvRenderServiceAssumeRole a],
                 Ok (alter (insert (sr_Name sr) (mkServiceRolePolicy pol assume))
                       (acc_Name (a_account a)) srps))
            end
        end
    end.
Proof.
  unfold service_role_step. destruct (pt_ServiceRole (a_pt a)); [|done].
  destruct (renderServiceRole _ _ _ _); [|done]. cbn.
  by destruct (renderServiceAssumeRole _ _ _ _).
Qed.

Lemma accept_cases c st a pd :
  accept c st a pd
  = let '(t, r) :=
      service_role_step c a
        (ensure (serviceRolePolicies st) (acc_Name (a_account a)) ∅) in
    (t, match r with
        | Ok srps =>
            Ok (mkLoopState
                  (append_doc (accountPolicies st) (acc_Name (a_account a)) pd)
                  srps
                  (add_scope (acc_Name (a_account a))
                     (ensure (scopeMap st) (acc_Name (a_account a)) ∅)
                     (pt_Scope (a_pt a)))
                  (missing st))
        | Err e => Err e
        end).
Proof.
  unfold accept. cbn.
  destruct (service_role_step _ _ _) as [t [srps|e]]; cbn; [|done].
  by rewrite (right_id_L [] (++)).
Qed.

Lemma loop_body_cases c st a :
  loop_body c st a
  = match rendered c a with
    | Err e => ([EvRenderTemplate a], Err e)
    | Ok None =>
        ([EvRenderTemplate a;
          EvPrintf ("[WARN] Policy template '" +:+ pt_Key (a_pt a)
                    +:+ "' not found" +:+ newline)],
         Ok (mkLoopState
               (append_doc (accountPolicies st) (acc_Name (a_account a)) emptyDoc)
               (ensure (serviceRolePolicies st) (acc_Name (a_account a)) ∅)
               (ensure (scopeMap st) (acc_Name (a_account a)) ∅)
               (missing st ++ [a])))
    | Ok (Some pd) =>
        if decide (Version pd ≠ "" ∧ Version pd ≠ IAMPolicyVersion) then
          ([EvRenderTemplate a],
           Err ("Unsupported policy version '" +:+ Version pd +:+ "'"))
        else
          let '(t, r) := accept c st a pd in (EvRenderTemplate a :: t, r)
    end.
Proof.
  unfold loop_body, rendered.
  destruct (renderTemplate _ _ _ _) as [[pd|]|e]; cbn; [|done..].
  case_decide; [done|]. by destruct (accept c st a pd).
Qed.

(** A turn that ends well, whichever way it took. *)
Lemma loop_body_Ok c st a t st' :
  loop_body c st a = (t, Ok st') →
  let name := acc_Name (a_account a) in
  t = events_of c a ∧
  accountPolicies st' = append_doc (accountPolicies st) name (doc_of c a) ∧
  scopeMap st'
  = add_scope name (ensure (scopeMap st) name ∅)
      (if is_present c a then pt_Scope (a_pt a) else []) ∧
  missing st' = missing st ++ (if is_absent c a then [a] else []) ∧
  serviceRolePolicies st'
  = store_pair c a (ensure (serviceRolePolicies st) name ∅).
Proof.
  rewrite loop_body_cases.
  unfold events_of, doc_of, store_pair, service_pair, is_present, is_absent.
  destruct (rendered c a) as [[pd|]|e]; [| |done].
  - case_decide; [done|]. rewrite accept_cases, service_role_step_cases. cbn.
    destruct (pt_ServiceRole (a_pt a)) as [sr|].
    + destruct (renderServiceRole _ _ _ _) as [pol|]; [|done].
      destruct (renderServiceAssumeRole _ _ _ _) as [assume|]; [|done].
      intros [= <- <-]. cbn. by rewrite (right_id_L [] (++)).
    + intros [= <- <-]. cbn. by rewrite (right_id_L [] (++)).
  - intros [= <- <-]. cbn. by destruct (pt_ServiceRole (a_pt a)).
Qed.

Lemma loop_body_rendered c st a t st' :
  loop_body c st a = (t, Ok st') →
  is_absent c a = true ∨
  ∃ pd, rendered c a = Ok (Some pd) ∧
    (Version pd = "" ∨ Version pd = IAMPolicyVersion) ∧
    (pt_ServiceRole (a_pt a) ≠ None → is_Some (service_pair c a)).
Proof.
  rewrite loop_body_cases. unfold is_absent, service_pair.
  destruct (rendered c a) as [[pd|]|e]; [|by left|done].
  case_decide as Hv; [done|]. rewrite accept_cases, service_role_step_cases. cbn.
  intros Hrun. right. exists pd. split_and!; [done| |].
  - destruct (decide (Version pd = "")); [by left|].
    destruct (decide (Version pd = IAMPolicyVersion)); [by right|].
    destruct Hv; done.
  - destruct (pt_ServiceRole (a_pt a)) as [sr|]; [|done]. intros _.
    destruct (renderServiceRole _ _ _ _) as [pol|]; [|done].
    destruct (renderServiceAssumeRole _ _ _ _) as [assume|]; [|done].
    eauto.
Qed.

End LoopBody.

(** ** The map updates of the loop *)

Lemma ensure_lookup {V} (m : gmap string V) k e j :
  ensure m k e !! j
  = if decide (j = k) then Some (default e (m !! k)) else m !! j.
Proof.
  unfold ensure. case_decide as Hj.
  - subst j. destruct (m !! k) eqn:Hk; cbn; [done|]. by rewrite lookup_insert_eq.
  - destruct (m !! k) eqn:Hk; [done|]. by rewrite lookup_insert_ne.
Qed.

Lemma dom_ensure {V} (m : gmap string V) k e :
  dom (ensure m k e) = {[k]} ∪ dom m.
Proof.
  unfold ensure. destruct (m !! k) eqn:Hk.
  - apply set_eq. intros j. rewrite elem_of_union, elem_of_singleton.
    split; [by right|]. intros [->|?]; [|done]. apply elem_of_dom; eauto.
  - by rewrite dom_insert_L.
Qed.

Lemma append_doc_lookup m k d j :
  append_doc m k d !! j
  = if decide (j = k) then Some (default [] (m !! k) ++ [d]) else m !! j.
Proof.
  unfold append_doc. case_decide as Hj.
  - subst j. by rewrite lookup_insert_eq.
  - by rewrite lookup_insert_ne.
Qed.

Lemma dom_append_doc m k d : dom (append_doc m k d) = {[k]} ∪ dom m.
Proof. unfold append_doc. by rewrite dom_insert_L. Qed.

Lemma add_scope_alter name (sm : gmap string (gset string)) scope :
  add_scope name sm scope = alter (λ po, list_to_set scope ∪ po) name sm.
Proof.
  unfold add_scope. revert sm.
  induction scope as [|s scope IH]; intros sm; cbn.
  - apply map_eq. intros j. rewrite lookup_alter. case_decide; [subst j|done].
    destruct (sm !! name); cbn; [|done]. by rewrite (left_id_L ∅ (∪)).
  - rewrite IH. apply map_eq. intros j. rewrite !lookup_alter.
    case_decide; [subst j|done]. rewrite decide_True by done.
    destruct (sm !! name); cbn; [|done]. f_equal.
    rewrite (assoc_L (∪)). f_equal. apply (comm_L (∪)).
Qed.

Lemma add_scope_lookup name (sm : gmap string (gset string)) scope j :
  add_scope name (ensure sm name ∅) scope !! j
  = if decide (j = name)
    then Some (list_to_set scope ∪ default ∅ (sm !! name))
    else sm !! j.
Proof.
  rewrite add_scope_alter, lookup_alter, !ensure_lookup.
  destruct (decide (j = name)) as [->|Hj].
  - by rewrite !decide_True by done.
  - by rewrite !decide_False by done.
Qed.

Lemma dom_add_scope name (sm : gmap string (gset string)) scope :
  dom (add_scope name sm scope) = dom sm.
Proof. rewrite add_scope_alter. apply dom_alter_L. Qed.

Section StorePair.
Context {E : Collaborators}.

Lemma dom_store_pair c a srps : dom (store_pair c a srps) = dom srps.
Proof.
  unfold store_pair.
  destruct (pt_ServiceRole (a_pt a)), (is_present c a), (service_pair c a);
    try done.
  apply dom_alter_L.
Qed.

Lemma ensure_bucket (srps : gmap string (gmap string ServiceRolePolicy))
    name acct role :
  ensure srps name ∅ !! acct ≫= (.!! role) = srps !! acct ≫= (.!! role).
Proof.
  rewrite ensure_lookup. case_decide; [subst acct|done].
  by destruct (srps !! name).
Qed.

(** What a turn that ends well leaves under [(acct, role)]. *)
Lemma store_pair_lookup c a srps acct role :
  (pt_ServiceRole (a_pt a) ≠ None → is_present c a = true →
   is_Some (service_pair c a)) →
  store_pair c a (ensure srps (acc_Name (a_account a)) ∅) !! acct
    ≫= (.!! role)
  = if decide (stores c acct role a) then service_pair c a
    else srps !! acct ≫= (.!! role).
Proof.
  intros Hpair. unfold store_pair.
  destruct (decide (stores c acct role a)) as [(Hacct & Hp & Hrole)|Hno].
  - destruct (pt_ServiceRole (a_pt a)) as [sr|] eqn:Hsr; [|done].
    cbn in Hrole. simplify_eq. rewrite Hp.
    destruct Hpair as [srp Hsrp]; [done..|]. rewrite Hsrp.
    rewrite lookup_alter, decide_True, ensure_lookup, decide_True by done.
    cbn. by rewrite lookup_insert_eq.
  - destruct (pt_ServiceRole (a_pt a)) as [sr|] eqn:Hsr;
      [|apply ensure_bucket].
    destruct (is_present c a) eqn:Hp; [|apply ensure_bucket].
    destruct (service_pair c a) as [srp|]; [|apply ensure_bucket].
    rewrite lookup_alter.
    destruct (decide (acc_Name (a_account a) = acct)) as [<-|Hacct];
      [|apply ensure_bucket].
    rewrite ensure_lookup, decide_True by done. cbn.
    rewrite lookup_insert_ne.
    + by destruct (srps !! acc_Name (a_account a)).
    + intros <-. apply Hno. split_and!; [done..|]. by rewrite Hsr.
Qed.

End StorePair.

(** ** What the first loop builds *)

Section Loop.
Context {E : Collaborators}.

Lemma foldM_snoc_Ok c st0 l a t st' :
  foldM (loop_body c) st0 (l ++ [a]) = (t, Ok st') ↔
  ∃ t1 st t2, foldM (loop_body c) st0 l = (t1, Ok st) ∧
    loop_body c st a = (t2, Ok st') ∧ t = t1 ++ t2.
Proof.
  rewrite foldM_app, M_bind_Ok. cbn -[loop_body].
  split; intros (t1 & st & t2 & Hl & Ha & ->); exists t1, st, t2;
    (split_and!; [done| |done]).
  - apply M_bind_Ok in Ha as (u1 & s & u2 & Hb & [= <- <-] & ->).
    by rewrite (right_id_L [] (++)).
  - apply M_bind_Ok. exists t2, st', []. by rewrite (right_id_L [] (++)).
Qed.

Lemma accounts_of_snoc l a :
  accounts_of (l ++ [a]) = {[acc_Name (a_account a)]} ∪ accounts_of l.
Proof.
  unfold accounts_of. rewrite fmap_app, list_to_set_app_L. cbn.
  rewrite (right_id_L ∅ (∪)). apply (comm_L (∪)).
Qed.

Lemma filter_snoc_account acct l a :
  filter (on_account acct) (l ++ [a])
  = filter (on_account acct) l
    ++ (if decide (acct = acc_Name (a_account a)) then [a] else []).
Proof.
  rewrite filter_app. f_equal. rewrite filter_cons, filter_nil.
  unfold on_account. destruct (decide (acct = _)) as [->|Hne].
  - by rewrite decide_True.
  - by rewrite decide_False.
Qed.

Lemma loop_inv_initial c : loop_inv c [] [] initial.
Proof.
  split; done.
Qed.

Lemma loop_inv_step c l t st a t' st' :
  loop_inv c l t st →
  loop_body c st a = (t', Ok st') →
  loop_inv c (l ++ [a]) (t ++ t') st'.
Proof.
  intros [Hdap Hdsm Hdsrp Hdocs Hscope Hmiss Hsrp Htr] Hbody.
  pose proof (loop_body_rendered _ _ _ _ _ Hbody) as Hrend.
  apply loop_body_Ok in Hbody as (-> & Hap & Hsm & Hm & Hs).
  cbv zeta in *. split.
  - by rewrite Hap, dom_append_doc, accounts_of_snoc, Hdap.
  - by rewrite Hsm, dom_add_scope, dom_ensure, accounts_of_snoc, Hdsm.
  - by rewrite Hs, dom_store_pair, dom_ensure, accounts_of_snoc, Hdsrp.
  - intros acct. unfold account_docs.
    rewrite Hap, append_doc_lookup, filter_snoc_account, fmap_app.
    case_decide as Hacct; cbn.
    + subst acct. f_equal. apply Hdocs.
    + rewrite (right_id_L [] (++)). apply Hdocs.
  - intros acct. unfold account_scope.
    rewrite Hsm, add_scope_lookup, filter_snoc_account, fmap_app,
      union_list_app_L.
    case_decide as Hacct; cbn.
    + subst acct. rewrite (right_id_L ∅ (∪)), Hscope.
      unfold account_scope, scope_of.
      destruct (is_present c a); cbn; [apply (comm_L (∪))|].
      by rewrite (left_id_L ∅ (∪)), (right_id_L ∅ (∪)).
    + rewrite (right_id_L ∅ (∪)). apply Hscope.
  - unfold missing_of. rewrite Hm, Hmiss, filter_app. f_equal.
    rewrite filter_cons, filter_nil. by destruct (is_absent c a).
  - intros acct role. rewrite Hs, store_pair_lookup.
    2: { intros Hsr Hp. destruct Hrend as [Habs|(pd & Hpd & _ & Hpair)]; [|auto].
         unfold is_absent, is_present in *. by destruct (rendered c a) as [[?|]|]. }
    unfold service_pairs. rewrite filter_app, omap_app, filter_cons, filter_nil.
    destruct (decide (stores c acct role a)) as [Hst|Hst]; cbn.
    + destruct Hst as (_ & Hp & Hrole).
      destruct Hrend as [Habs|(pd & Hpd & _ & Hpair)].
      { unfold is_absent, is_present in *. by destruct (rendered c a) as [[?|]|]. }
      destruct Hpair as [srp Hpair].
      { by destruct (pt_ServiceRole (a_pt a)). }
      rewrite Hpair. cbn. by rewrite last_snoc.
    + rewrite (right_id_L [] (++)). apply Hsrp.
  - rewrite Htr, bind_app. cbn. by rewrite (right_id_L [] (++)).
Qed.

Lemma loop_inv_run c l t st :
  foldM (loop_body c) initial l = (t, Ok st) → loop_inv c l t st.
Proof.
  revert t st. induction l as [|a l IH] using rev_ind; intros t st.
  - intros [= <- <-]. apply loop_inv_initial.
  - intros (t1 & st1 & t2 & Hl & Ha & ->)%foldM_snoc_Ok.
    eapply loop_inv_step; eauto.
Qed.

End Loop.

(** ** Sorting the scope *)

Lemma sort_strings_sorted l : Sorted String.le (sort_strings l).
Proof. apply Sorted_merge_sort, _. Qed.

Lemma sort_strings_perm l : sort_strings l ≡ₚ l.
Proof. apply merge_sort_Permutation. Qed.

(** The result does not depend on the order in which the strings come. *)
Lemma sort_strings_order l1 l2 : l1 ≡ₚ l2 → sort_strings l1 = sort_strings l2.
Proof.
  intros Hperm. apply (Sorted_unique String.le).
  - apply sort_strings_sorted.
  - apply sort_strings_sorted.
  - by rewrite !sort_strings_perm.
Qed.

Lemma sort_strings_elem_of l s : s ∈ sort_strings l ↔ s ∈ l.
Proof. by rewrite sort_strings_perm. Qed.

(** ** The loop over [scopeMap] *)

Section Finalize.
Context {O : MapOrder}.

Lemma deny_statement_canonical po :
  deny_statement po
  = if decide (size po = 0) then denyAll
    else denyUnknownServices (sort_strings (elements po)).
Proof.
  unfold deny_statement. case_decide; [done|].
  f_equal. apply sort_strings_order, range_scope_perm.
Qed.

Lemma finalize_account_lookup aps0 arps0 k po acct :
  let '(aps, arps) := finalize_account (aps0, arps0) (k, po) in
  aps !! acct
  = (if decide (acct = k)
     then Some (default [] (aps0 !! k) ++ closing po) else aps0 !! acct) ∧
  arps !! acct
  = (if decide (acct = k)
     then Some (default [] (aps0 !! k) ++ [mkDoc "" [deny_statement po]])
     else arps0 !! acct).
Proof.
  unfold finalize_account, closing. split.
  - case_decide as Hpos.
    + rewrite !append_doc_lookup. case_decide; [|done].
      rewrite decide_True by done. cbn. by rewrite <- (assoc_L (++)).
    + rewrite !append_doc_lookup. by case_decide.
  - rewrite lookup_insert. destruct (decide (acct = k)) as [->|Hne].
    + rewrite decide_True by done.
      by rewrite append_doc_lookup, decide_True.
    + by rewrite decide_False by done.
Qed.

Lemma finalize_fold_lookup es aps0 arps0 aps arps acct :
  NoDup es.*1 →
  foldl finalize_account (aps0, arps0) es = (aps, arps) →
  aps !! acct
  = match (list_to_map es : gmap string (gset string)) !! acct with
    | Some po => Some (default [] (aps0 !! acct) ++ closing po)
    | None => aps0 !! acct
    end ∧
  arps !! acct
  = match (list_to_map es : gmap string (gset string)) !! acct with
    | Some po =>
        Some (default [] (aps0 !! acct) ++ [mkDoc "" [deny_statement po]])
    | None => arps0 !! acct
    end.
Proof.
  revert aps0 arps0. induction es as [|[k po] es IH]; intros aps0 arps0 Hnd.
  - by intros [= <- <-].
  - cbn [foldl]. apply NoDup_cons in Hnd as [Hk Hnd].
    pose proof (finalize_account_lookup aps0 arps0 k po acct) as Hstep.
    destruct (finalize_account (aps0, arps0) (k, po)) as [aps1 arps1].
    destruct Hstep as [Hap Harp]. intros Hfold.
    destruct (IH _ _ Hnd Hfold) as [-> ->].
    cbn [list_to_map foldr]. rewrite lookup_insert.
    destruct (decide (k = acct)) as [->|Hne].
    + rewrite (not_elem_of_list_to_map_1 es acct) by done.
      rewrite Hap, Harp, !decide_True by done. done.
    + rewrite Hap, Harp, !decide_False by done. done.
Qed.

Lemma range_scopeMap_to_map (sm : gmap string (gset string)) :
  NoDup (range_scopeMap sm).*1 ∧ list_to_map (range_scopeMap sm) = sm.
Proof.
  pose proof (range_scopeMap_perm sm) as Hperm.
  assert (NoDup (range_scopeMap sm).*1) as Hnd.
  { rewrite Hperm. apply NoDup_fst_map_to_list. }
  split; [done|].
  rewrite (list_to_map_proper _ _ Hnd Hperm). apply list_to_map_to_list.
Qed.

(** The aggregate, account by account. *)
Lemma aggregate_lookup c st acct :
  let p := aggregate c st in
  AccountPolicies p !! acct
  = match scopeMap st !! acct with
    | Some po => Some (default [] (accountPolicies st !! acct) ++ closing po)
    | None => accountPolicies st !! acct
    end ∧
  AccountRolePolicies p !! acct
  = match scopeMap st !! acct with
    | Some po =>
        Some (default [] (accountPolicies st !! acct)
              ++ [mkDoc "" [deny_statement po]])
    | None => None
    end ∧
  ServiceRolePolicies p = serviceRolePolicies st ∧
  p_amper p = c_amper c.
Proof.
  unfold aggregate.
  destruct (range_scopeMap_to_map (scopeMap st)) as [Hnd Hmap].
  destruct (foldl finalize_account _ _) as [aps arps] eqn:Hfold. cbn.
  destruct (finalize_fold_lookup _ _ _ _ _ acct Hnd Hfold) as [-> ->].
  rewrite Hmap, lookup_empty. done.
Qed.

End Finalize.

(** ** The whole of [Policy] *)

Lemma Policy_ext (p q : Policy) :
  p_amper p = p_amper q →
  AccountPolicies p = AccountPolicies q →
  AccountRolePolicies p = AccountRolePolicies q →
  ServiceRolePolicies p = ServiceRolePolicies q →
  p = q.
Proof. destruct p, q; cbn; congruence. Qed.

(** The aggregate does not depend on the order of the two map loops. *)
Lemma aggregate_order (O1 O2 : MapOrder) c st :
  aggregate (O:=O1) c st = aggregate (O:=O2) c st.
Proof.
  apply Policy_ext.
  - pose proof (aggregate_lookup (O:=O1) c st "") as (_ & _ & _ & ->).
    by pose proof (aggregate_lookup (O:=O2) c st "") as (_ & _ & _ & ->).
  - apply map_eq. intros acct.
    pose proof (aggregate_lookup (O:=O1) c st acct) as (-> & _).
    pose proof (aggregate_lookup (O:=O2) c st acct) as (-> & _).
    destruct (scopeMap st !! acct); [|done].
    unfold closing. by rewrite !deny_statement_canonical.
  - apply map_eq. intros acct.
    pose proof (aggregate_lookup (O:=O1) c st acct) as (_ & -> & _).
    pose proof (aggregate_lookup (O:=O2) c st acct) as (_ & -> & _).
    destruct (scopeMap st !! acct); [|done].
    by rewrite !deny_statement_canonical.
  - pose proof (aggregate_lookup (O:=O1) c st "") as (_ & _ & -> & _).
    by pose proof (aggregate_lookup (O:=O2) c st "") as (_ & _ & -> & _).
Qed.

Lemma Policy_run_order {E : Collaborators} (O1 O2 : MapOrder) c :
  Policy_run (O:=O1) c = Policy_run (O:=O2) c.
Proof.
  unfold Policy_run. destruct (run_loop c) as [t [st|e]]; [|done].
  by rewrite (aggregate_order O1 O2).
Qed.

Section PolicyFacts.
Context {E : Collaborators} {O : MapOrder}.

Lemma Policy_success c p m :
  Container_Policy c = (Some p, None, m) →
  ∃ t st, run_loop c = (t, Ok st) ∧
    loop_inv c (attachments c) t st ∧
    compress (aggregate c st) = (p, None) ∧
    m = missing st ∧
    Policy_trace c = t ++ [EvCompress (aggregate c st)].
Proof.
  unfold Container_Policy, Policy_trace, Policy_run.
  destruct (run_loop c) as [t [st|e]] eqn:Hrun; [|done].
  destruct (compress (aggregate c st)) as [p' [e|]] eqn:Hc; [done|].
  cbn. intros [= <- <-]. exists t, st. split_and!; try done.
  by apply loop_inv_run.
Qed.

Lemma final_scope_run c t st acct :
  run_loop c = (t, Ok st) → final_scope c acct = scopeMap st !! acct.
Proof. unfold final_scope. by intros ->. Qed.

Lemma loop_inv_touched c l t st acct :
  loop_inv c l t st →
  (acct ∈ accounts_of l →
     accountPolicies st !! acct = Some (account_docs c acct l) ∧
     scopeMap st !! acct = Some (account_scope c acct l)) ∧
  (acct ∉ accounts_of l →
     accountPolicies st !! acct = None ∧ scopeMap st !! acct = None).
Proof.
  intros Hinv. split; intros Hacct.
  - pose proof Hacct as Hacct'.
    rewrite <- (inv_dom_ap _ _ _ _ Hinv) in Hacct.
    rewrite <- (inv_dom_sm _ _ _ _ Hinv) in Hacct'.
    apply elem_of_dom in Hacct as [docs Hdocs].
    apply elem_of_dom in Hacct' as [po Hpo].
    pose proof (inv_docs _ _ _ _ Hinv acct) as Hd.
    pose proof (inv_scope _ _ _ _ Hinv acct) as Hs.
    rewrite Hdocs in Hd. rewrite Hpo in Hs. cbn in *. by subst.
  - pose proof Hacct as Hacct'.
    rewrite <- (inv_dom_ap _ _ _ _ Hinv) in Hacct.
    rewrite <- (inv_dom_sm _ _ _ _ Hinv) in Hacct'.
    by apply not_elem_of_dom in Hacct, Hacct'.
Qed.

(** The output, account by account, in terms of the attachments. *)
Lemma Policy_account c p m acct :
  compress_transparent →
  Container_Policy c = (Some p, None, m) →
  (acct ∈ accounts_of (attachments c) →
     let po := account_scope c acct (attachments c) in
     let docs := account_docs c acct (attachments c) in
     final_scope c acct = Some po ∧
     AccountPolicies p !! acct = Some (docs ++ closing po) ∧
     AccountRolePolicies p !! acct
     = Some (docs ++ [mkDoc "" [deny_statement po]])) ∧
  (acct ∉ accounts_of (attachments c) →
     final_scope c acct = None ∧
     AccountPolicies p !! acct = None ∧
     AccountRolePolicies p !! acct = None).
Proof.
  intros Htr (t & st & Hrun & Hinv & Hc & -> & _)%Policy_success.
  apply Htr in Hc as ->.
  rewrite (final_scope_run _ _ _ _ Hrun).
  pose proof (aggregate_lookup c st acct) as (-> & -> & _).
  destruct (loop_inv_touched _ _ _ _ acct Hinv) as [Hin Hout].
  split; intros Hacct.
  - destruct (Hin Hacct) as [-> ->]. done.
  - destruct (Hout Hacct) as [-> ->]. done.
Qed.

Lemma elem_of_accounts_of l acct :
  acct ∈ accounts_of l ↔ ∃ a, a ∈ l ∧ acc_Name (a_account a) = acct.
Proof.
  unfold accounts_of. rewrite elem_of_list_to_set, list_elem_of_fmap.
  split; [intros (a & -> & Ha) | intros (a & Ha & <-)]; eauto.
Qed.

Lemma elem_of_account_scope c acct l s :
  s ∈ account_scope c acct l ↔
  ∃ a, a ∈ l ∧ acc_Name (a_account a) = acct ∧
    is_present c a = true ∧ s ∈ pt_Scope (a_pt a).
Proof.
  unfold account_scope. rewrite elem_of_union_list. split.
  - intros (X & (a & -> & Ha)%list_elem_of_fmap & Hs).
    apply list_elem_of_filter in Ha as [Hacct Ha].
    unfold scope_of in Hs. destruct (is_present c a) eqn:Hp.
    + apply elem_of_list_to_set in Hs. by exists a.
    + by apply not_elem_of_empty in Hs.
  - intros (a & Ha & Hacct & Hp & Hs). exists (scope_of c a). split.
    + apply list_elem_of_fmap. exists a. split; [done|].
      by apply list_elem_of_filter.
    + unfold scope_of. rewrite Hp. by apply elem_of_list_to_set.
Qed.

Lemma size_zero_empty (po : gset string) : size po = 0 ↔ po = ∅.
Proof. rewrite size_empty_iff. apply leibniz_equiv_iff. Qed.

Lemma closing_empty po :
  po = ∅ → closing po = [mkDoc "" [denyAll]].
Proof.
  intros ->. unfold closing, deny_statement.
  rewrite decide_True by apply size_empty.
  rewrite decide_False; [done|]. rewrite size_empty. lia.
Qed.

Lemma closing_non_empty po :
  po ≠ ∅ →
  closing po
  = [mkDoc "" [denyUnknownServices (sort_strings (elements po))];
     mkDoc "" [allowAll]].
Proof.
  intros Hpo. unfold closing. rewrite deny_statement_canonical.
  assert (size po ≠ 0) as Hsize by (by rewrite size_zero_empty).
  rewrite decide_False by done. rewrite decide_True by lia. done.
Qed.

Lemma deny_statement_not_allow po : deny_statement po ≠ allowAll.
Proof. rewrite deny_statement_canonical. by case_decide. Qed.

(** C1 (amended). For every account of the output, the role policies are
    the documents rendered for the account (an empty placeholder where a
    render gave none) followed by the synthesized deny document, which is
    not the allow-all document; the account policies are that same list
    followed by exactly one allow-all document when the account's scope
    set is not empty, and that same list when it is empty. The output is
    taken after a [compress] that leaves what it accepts unchanged. *)
Theorem Policy_role_policies_prefix c p m acct :
  compress_transparent →
  Container_Policy c = (Some p, None, m) →
  is_Some (AccountPolicies p !! acct)
  ∨ is_Some (AccountRolePolicies p !! acct) →
  ∃ po arp,
    final_scope c acct = Some po ∧
    AccountRolePolicies p !! acct = Some arp ∧
    arp = account_docs c acct (attachments c)
          ++ [mkDoc "" [deny_statement po]] ∧
    mkDoc "" [deny_statement po] ≠ mkDoc "" [allowAll] ∧
    (po ≠ ∅ →
       AccountPolicies p !! acct = Some (arp ++ [mkDoc "" [allowAll]])) ∧
    (po = ∅ → AccountPolicies p !! acct = Some arp).
Proof.
  intros Htr Hrun Hacct.
  destruct (Policy_account c p m acct Htr Hrun) as [Hin Hout].
  destruct (decide (acct ∈ accounts_of (attachments c))) as [Hd|Hd].
  2: { destruct (Hout Hd) as (_ & Hap & Harp).
       rewrite Hap, Harp in Hacct. by destruct Hacct as [[? ?]|[? ?]]. }
  destruct (Hin Hd) as (Hscope & Hap & Harp). cbv zeta in *.
  eexists _, _. split_and!; [done..| | |].
  - intros [= Heq]. by apply deny_statement_not_allow in Heq.
  - intros Hpo. rewrite Hap. f_equal. rewrite <- (assoc_L (++)). f_equal.
    unfold closing. rewrite decide_True; [done|].
    rewrite <- size_zero_empty in Hpo. lia.
  - intros Hpo. rewrite Hap. f_equal. f_equal.
    unfold closing. rewrite decide_False; [done|].
    rewrite Hpo, size_empty. lia.
Qed.

End PolicyFacts.

Lemma Demo_transparent : compress_transparent (E:=Demo.collaborators).
Proof. by intros p p' [= <-]. Qed.

(** The scenario of [T1] and [T2] on account "A": the role policies are the
    two rendered documents and the deny document, the account policies have
    the allow-all document after them. *)
Lemma Policy_role_policies_prefix_witness :
  ∃ p, Demo.Policy_of Demo.scenario = (Some p, None, []) ∧
    AccountRolePolicies p !! "A"
    = Some [Demo.doc_for Demo.T1; Demo.doc_for Demo.T2;
            mkDoc "" [denyUnknownServices ["ec2:*"; "s3:*"]]] ∧
    ∃ po arp,
      final_scope (E:=Demo.collaborators) Demo.scenario "A" = Some po ∧
      AccountRolePolicies p !! "A" = Some arp ∧
      arp = account_docs (E:=Demo.collaborators) Demo.scenario "A"
              (attachments Demo.scenario)
            ++ [mkDoc "" [deny_statement (O:=Demo.forwards) po]] ∧
      mkDoc "" [deny_statement (O:=Demo.forwards) po] ≠ mkDoc "" [allowAll] ∧
      (po ≠ ∅ →
         AccountPolicies p !! "A" = Some (arp ++ [mkDoc "" [allowAll]])) ∧
      (po = ∅ → AccountPolicies p !! "A" = Some arp).
Proof.
  eexists. split; [vm_compute; reflexivity|].
  split; [vm_compute; reflexivity|].
  apply (Policy_role_policies_prefix (E:=Demo.collaborators)
           (O:=Demo.forwards) Demo.scenario _ [] "A").
  - exact Demo_transparent.
  - vm_compute. reflexivity.
  - left. vm_compute. eauto.
Defined.

(** C1 as stated fails where the scope set is empty: for the single
    attachment on account "B" that renders to nothing, both lists are the
    placeholder followed by the deny-everything document. *)
Lemma Policy_role_policies_not_strict :
  ∃ p, Demo.Policy_of Demo.only_absent = (Some p, None, [Demo.attach Demo.Tabsent Demo.acctB []]) ∧
    AccountPolicies p !! "B" = Some [emptyDoc; mkDoc "" [denyAll]] ∧
    AccountRolePolicies p !! "B" = Some [emptyDoc; mkDoc "" [denyAll]] ∧
    ¬ role_policies_strict_prefix p.
Proof.
  eexists. split; [vm_compute; reflexivity|].
  split; [vm_compute; reflexivity|].
  split; [vm_compute; reflexivity|].
  intros Hclaim.
  destruct (Hclaim "B" [emptyDoc; mkDoc "" [denyAll]]) as (arp & Harp & k & Hk & Heq).
  { vm_compute. reflexivity. }
  vm_compute in Harp. simplify_eq.
  destruct k; [done|]. by apply (f_equal length) in Heq.
Qed.

Section ScopeFacts.
Context {E : Collaborators} {O : MapOrder}.

(** C2. For every account whose scope set is not empty when the first loop
    has ended, the account policies are the account's documents, then one
    document with the deny statement, then the allow-all document. The
    deny statement has effect Deny, resources ["*"], no actions, and as
    negated actions the members of the scope set, each once, in ascending
    byte-wise order. The scope set holds the scope identifiers of the
    templates attached to the account whose render gave a document. The
    result of [Policy] is the same for every order of the two map loops.
    The output is taken after a [compress] that leaves what it accepts
    unchanged. *)
Theorem Policy_deny_unknown_sorted c p m acct po :
  compress_transparent →
  Container_Policy c = (Some p, None, m) →
  final_scope c acct = Some po →
  po ≠ ∅ →
  ∃ deny,
    AccountPolicies p !! acct
    = Some (account_docs c acct (attachments c)
            ++ [mkDoc "" [deny]; mkDoc "" [allowAll]]) ∧
    Sid deny = "DenyUnknownServices" ∧
    Effect deny = "Deny" ∧
    Actions deny = [] ∧
    Resources deny = ["*"] ∧
    NotActions deny = sort_strings (elements po) ∧
    Sorted String.le (NotActions deny) ∧
    NoDup (NotActions deny) ∧
    (∀ s, s ∈ NotActions deny ↔ s ∈ po) ∧
    (∀ s, s ∈ po ↔
       ∃ a, a ∈ attachments c ∧ acc_Name (a_account a) = acct ∧
         is_present c a = true ∧ s ∈ pt_Scope (a_pt a)) ∧
    (∀ O1 O2 : MapOrder,
       Container_Policy (O:=O1) c = Container_Policy (O:=O2) c) ∧
    (∀ O1 : MapOrder, deny_statement (O:=O1) po = deny).
Proof.
  intros Htr Hrun Hscope Hpo.
  destruct (Policy_account c p m acct Htr Hrun) as [Hin Hout].
  destruct (decide (acct ∈ accounts_of (attachments c))) as [Hd|Hd].
  2: { destruct (Hout Hd) as (Hnone & _). congruence. }
  destruct (Hin Hd) as (Hscope' & Hap & _). cbv zeta in *.
  rewrite Hscope in Hscope'. injection Hscope' as Hpo'.
  rewrite <- Hpo' in Hap. rewrite closing_non_empty in Hap by done.
  exists (denyUnknownServices (sort_strings (elements po))).
  split_and!; try done.
  - apply sort_strings_sorted.
  - cbn. rewrite sort_strings_perm. apply NoDup_elements.
  - intros s. cbn. by rewrite sort_strings_elem_of, elem_of_elements.
  - intros s. rewrite Hpo'. apply elem_of_account_scope.
  - intros O1 O2. unfold Container_Policy. f_equal. apply Policy_run_order.
  - intros O1. rewrite deny_statement_canonical.
    rewrite decide_False; [done|]. by rewrite size_zero_empty.
Qed.

(** C3 (amended). For every account that some attachment names and whose
    scope set is empty when the first loop has ended, the account policies
    are the documents rendered for the account (an empty placeholder where
    a render gave none) followed by one document with the single
    deny-everything statement (effect Deny, actions ["*"], resources
    ["*"]); no allow-everything document is appended, so an
    allow-everything statement in the list comes from a rendered document,
    and the role policies are the same list. The output is taken after a
    [compress] that leaves what it accepts unchanged. *)
Theorem Policy_deny_all c p m acct a :
  compress_transparent →
  Container_Policy c = (Some p, None, m) →
  a ∈ attachments c → acc_Name (a_account a) = acct →
  final_scope c acct = Some ∅ →
  AccountPolicies p !! acct
  = Some (account_docs c acct (attachments c) ++ [mkDoc "" [denyAll]]) ∧
  AccountRolePolicies p !! acct = AccountPolicies p !! acct ∧
  Effect denyAll = "Deny" ∧ Actions denyAll = ["*"] ∧
  Resources denyAll = ["*"] ∧
  (has_allow_everything (default [] (AccountPolicies p !! acct)) →
   ∃ a', a' ∈ attachments c ∧ acc_Name (a_account a') = acct ∧
     allowAll ∈ Statements (doc_of c a')).
Proof.
  intros Htr Hrun Ha Hacct Hscope.
  destruct (Policy_account c p m acct Htr Hrun) as [Hin _].
  destruct Hin as (Hscope' & Hap & Harp).
  { apply elem_of_accounts_of. eauto. }
  cbv zeta in *. rewrite Hscope in Hscope'. injection Hscope' as Hpo.
  rewrite <- Hpo in Hap, Harp.
  rewrite closing_empty in Hap by done.
  assert (deny_statement (∅ : gset string) = denyAll) as Hdeny.
  { unfold deny_statement. by rewrite decide_True by apply size_empty. }
  rewrite Hdeny in Harp. split_and!; try done; [congruence|].
  rewrite Hap. cbn. intros (d & Hd & Hallow).
  apply elem_of_app in Hd as [Hd|Hd].
  - unfold account_docs in Hd.
    apply list_elem_of_fmap in Hd as (a' & -> & Ha').
    apply list_elem_of_filter in Ha' as [Hacct' Ha']. by exists a'.
  - apply list_elem_of_singleton in Hd as ->. cbn in Hallow.
    by apply list_elem_of_singleton in Hallow.
Qed.

End ScopeFacts.

(** In the scenario the scope set of "A" is {"s3:*", "ec2:*"}; the deny
    statement lists "ec2:*" before "s3:*", also when both map loops run in
    the opposite order. *)
Lemma Policy_deny_unknown_sorted_witness :
  ∃ p deny,
    Demo.Policy_of Demo.scenario = (Some p, None, []) ∧
    AccountPolicies p !! "A"
    = Some (account_docs (E:=Demo.collaborators) Demo.scenario "A"
              (attachments Demo.scenario)
            ++ [mkDoc "" [deny]; mkDoc "" [allowAll]]) ∧
    Effect deny = "Deny" ∧ Resources deny = ["*"] ∧
    NotActions deny = ["ec2:*"; "s3:*"] ∧
    Container_Policy (E:=Demo.collaborators) (O:=Demo.backwards) Demo.scenario
    = Demo.Policy_of Demo.scenario.
Proof.
  assert (∃ p, Demo.Policy_of Demo.scenario = (Some p, None, [])) as [p Hrun]
    by (eexists; vm_compute; reflexivity).
  destruct (Policy_deny_unknown_sorted (E:=Demo.collaborators)
              (O:=Demo.forwards) Demo.scenario p [] "A" {["s3:*"; "ec2:*"]})
    as (deny & Hap & _ & Heff & _ & Hres & Hnot & _ & _ & _ & _ & Hord & _).
  - exact Demo_transparent.
  - exact Hrun.
  - vm_compute. reflexivity.
  - intros Hempty. by vm_compute in Hempty.
  - exists p, deny. split; [exact Hrun|].
    split; [exact Hap|]. split; [exact Heff|]. split; [exact Hres|].
    split; [rewrite Hnot; vm_compute; reflexivity|].
    apply Hord.
Defined.

(** Account "B" with its single attachment that renders to nothing: the
    placeholder, then the deny-everything document. *)
Lemma Policy_deny_all_witness :
  ∃ p, Demo.Policy_of Demo.only_absent
       = (Some p, None, [Demo.attach Demo.Tabsent Demo.acctB []]) ∧
    AccountPolicies p !! "B"
    = Some (account_docs (E:=Demo.collaborators) Demo.only_absent "B"
              (attachments Demo.only_absent) ++ [mkDoc "" [denyAll]]) ∧
    AccountPolicies p !! "B" = Some [emptyDoc; mkDoc "" [denyAll]] ∧
    AccountRolePolicies p !! "B" = AccountPolicies p !! "B".
Proof.
  assert (∃ p, Demo.Policy_of Demo.only_absent
               = (Some p, None, [Demo.attach Demo.Tabsent Demo.acctB []]))
    as [p Hrun] by (eexists; vm_compute; reflexivity).
  destruct (Policy_deny_all (E:=Demo.collaborators) (O:=Demo.forwards)
              Demo.only_absent p [Demo.attach Demo.Tabsent Demo.acctB []] "B"
              (Demo.attach Demo.Tabsent Demo.acctB []))
    as (Hap & Harp & _).
  - exact Demo_transparent.
  - exact Hrun.
  - by apply list_elem_of_singleton.
  - reflexivity.
  - vm_compute. reflexivity.
  - exists p. split; [exact Hrun|]. split; [exact Hap|].
    split; [rewrite Hap; vm_compute; reflexivity | exact Harp].
Defined.

(** C3 as stated fails when a template without scope renders the
    allow-everything statement: the account's scope set is empty and its
    policies end with the deny-everything document, yet they contain an
    allow-everything statement. *)
Lemma Policy_deny_all_keeps_rendered_allow :
  ∃ p, Demo.Policy_of Demo.only_allow = (Some p, None, []) ∧
    final_scope (E:=Demo.collaborators) Demo.only_allow "A" = Some ∅ ∧
    AccountPolicies p !! "A"
    = Some [mkDoc Demo.version [allowAll]; mkDoc "" [denyAll]] ∧
    has_allow_everything (default [] (AccountPolicies p !! "A")).
Proof.
  eexists. split; [vm_compute; reflexivity|].
  split; [vm_compute; reflexivity|].
  split; [vm_compute; reflexivity|].
  exists (mkDoc Demo.version [allowAll]). split.
  - vm_compute. by left.
  - by left.
Qed.

(** ** Reaching an attachment, and what follows *)

Section Reach.
Context {E : Collaborators} {O : MapOrder}.

Lemma run_loop_reach c l1 a l2 t st :
  attachments c = l1 ++ a :: l2 →
  foldM (loop_body c) initial l1 = (t, Ok st) →
  run_loop c
  = match loop_body c st a with
    | (t', Err e) => (t ++ t', Err e)
    | (t', Ok st') =>
        let '(t'', r) := foldM (loop_body c) st' l2 in (t ++ t' ++ t'', r)
    end.
Proof.
  intros Hl Hpre. unfold run_loop. rewrite Hl, foldM_app, Hpre.
  cbn -[loop_body]. destruct (loop_body c st a) as [t' [st'|e]]; [|done].
  cbn -[loop_body]. by destruct (foldM (loop_body c) st' l2).
Qed.

Lemma Policy_run_abort c l1 a l2 t st t' e :
  attachments c = l1 ++ a :: l2 →
  foldM (loop_body c) initial l1 = (t, Ok st) →
  loop_body c st a = (t', Err e) →
  Policy_run c = (t ++ t', (None, Some e, [])).
Proof.
  intros Hl Hpre Hbody. unfold Policy_run.
  by rewrite (run_loop_reach _ _ _ _ _ _ Hl Hpre), Hbody.
Qed.

Lemma Policy_missing c p m :
  Container_Policy c = (Some p, None, m) → m = missing_of c (attachments c).
Proof.
  intros (t & st & _ & Hinv & _ & -> & _)%Policy_success.
  apply (inv_missing _ _ _ _ Hinv).
Qed.

(** C4. When the loop reaches an attachment whose render succeeds with no
    document, the turn ends without error after the render call and the
    warning: an empty placeholder document is appended to the account's
    policies, the attachment is appended to the missing list, the account's
    scope set is the one it had (the empty set if it had none) and no other
    scope set changes, and the loop goes on with the next attachment. When
    [Policy] succeeds the attachment is in the missing list it returns. *)
Theorem Policy_render_absent c l1 a l2 t st :
  attachments c = l1 ++ a :: l2 →
  foldM (loop_body c) initial l1 = (t, Ok st) →
  rendered c a = Ok None →
  ∃ t' st',
    loop_body c st a = (t', Ok st') ∧
    t' = [EvRenderTemplate a;
          EvPrintf ("[WARN] Policy template '" +:+ pt_Key (a_pt a)
                    +:+ "' not found" +:+ newline)] ∧
    accountPolicies st' !! acc_Name (a_account a)
    = Some (default [] (accountPolicies st !! acc_Name (a_account a))
            ++ [emptyDoc]) ∧
    missing st' = missing st ++ [a] ∧
    scopeMap st' !! acc_Name (a_account a)
    = Some (default ∅ (scopeMap st !! acc_Name (a_account a))) ∧
    (∀ acct, acct ≠ acc_Name (a_account a) →
       scopeMap st' !! acct = scopeMap st !! acct ∧
       accountPolicies st' !! acct = accountPolicies st !! acct) ∧
    (∀ acct role,
       serviceRolePolicies st' !! acct ≫= (.!! role)
       = serviceRolePolicies st !! acct ≫= (.!! role)) ∧
    run_loop c
    = (let '(t'', r) := foldM (loop_body c) st' l2 in (t ++ t' ++ t'', r)) ∧
    (∀ p m, Container_Policy c = (Some p, None, m) → a ∈ m).
Proof.
  intros Hl Hpre Habs.
  pose proof (loop_body_cases c st a) as Hbody. rewrite Habs in Hbody.
  eexists _, _. split; [exact Hbody|]. cbn. split_and!; try done.
  - by rewrite append_doc_lookup, decide_True.
  - by rewrite ensure_lookup, decide_True.
  - intros acct Hne.
    by rewrite ensure_lookup, append_doc_lookup, !decide_False.
  - intros acct role. apply ensure_bucket.
  - by rewrite (run_loop_reach _ _ _ _ _ _ Hl Hpre), Hbody.
  - intros p m ->%Policy_missing. unfold missing_of.
    apply list_elem_of_filter. split.
    + unfold is_absent. by rewrite Habs.
    + rewrite Hl. apply elem_of_app. right. by left.
Qed.

(** C5. When the loop reaches an attachment whose rendered document has a
    version that is neither empty nor the supported one, [Policy] returns
    no aggregate, the unsupported-version error that names the version, and
    no missing list, and the template's render is its last call. A document
    with an empty version passes the check: the turn appends it to the
    account's policies, and can fail only in the rendering of a service
    role the template declares. *)
Theorem Policy_version_check c l1 a l2 t st pd :
  attachments c = l1 ++ a :: l2 →
  foldM (loop_body c) initial l1 = (t, Ok st) →
  rendered c a = Ok (Some pd) →
  (Version pd ≠ "" → Version pd ≠ IAMPolicyVersion →
     Container_Policy c
     = (None, Some ("Unsupported policy version '" +:+ Version pd +:+ "'"), [])
     ∧ Policy_trace c = t ++ [EvRenderTemplate a]) ∧
  (Version pd = "" →
     loop_body c st a
     = (let '(t', r) := accept c st a pd in (EvRenderTemplate a :: t', r)) ∧
     (∀ t' st', loop_body c st a = (t', Ok st') →
        accountPolicies st' !! acc_Name (a_account a)
        = Some (default [] (accountPolicies st !! acc_Name (a_account a))
                ++ [pd])) ∧
     (pt_ServiceRole (a_pt a) = None →
        ∃ st', loop_body c st a = ([EvRenderTemplate a], Ok st')) ∧
     (∀ t' e, loop_body c st a = (t', Err e) →
        pt_ServiceRole (a_pt a) ≠ None ∧
        (renderServiceRole (a_pt a) c (a_account a) (a_vars a) = Err e ∨
         renderServiceAssumeRole (a_pt a) c (a_account a) (a_vars a) = Err e))).
Proof.
  intros Hl Hpre Hpd.
  pose proof (loop_body_cases c st a) as Hbody. rewrite Hpd in Hbody.
  split.
  - intros Hv1 Hv2. rewrite decide_True in Hbody by done.
    unfold Container_Policy, Policy_trace.
    by rewrite (Policy_run_abort _ _ _ _ _ _ _ _ Hl Hpre Hbody).
  - intros Hv. rewrite decide_False in Hbody by (by intros [? _]).
    split; [exact Hbody|].
    rewrite accept_cases, service_role_step_cases in Hbody.
    split_and!.
    + intros t' st' Hok. apply loop_body_Ok in Hok as (_ & -> & _).
      unfold doc_of. by rewrite Hpd, append_doc_lookup, decide_True.
    + intros Hsr. rewrite Hsr in Hbody. eauto.
    + intros t' e Herr. rewrite Herr in Hbody.
      destruct (pt_ServiceRole (a_pt a)) as [sr|]; [|done].
      split; [done|].
      destruct (renderServiceRole _ _ _ _) as [pol|e1]; [|left; congruence].
      destruct (renderServiceAssumeRole _ _ _ _) as [assume|e2];
        [done|right; congruence].
Qed.

End Reach.

(** The absent render on "B" between two attachments on "A": [Policy]
    succeeds and returns that attachment as missing. *)
Lemma Policy_render_absent_witness :
  ∃ p m, Demo.Policy_of Demo.absent_between = (Some p, None, m) ∧
    Demo.attach Demo.Tabsent Demo.acctB [] ∈ m ∧
    AccountPolicies p !! "B" = Some [emptyDoc; mkDoc "" [denyAll]].
Proof.
  assert (∃ t st, Demo.loop_on Demo.absent_between
                    [Demo.attach Demo.T1 Demo.acctA []] = (t, Ok st))
    as (t & st & Hpre) by (eexists _, _; vm_compute; reflexivity).
  destruct (Policy_render_absent (E:=Demo.collaborators) (O:=Demo.forwards)
              Demo.absent_between [Demo.attach Demo.T1 Demo.acctA []]
              (Demo.attach Demo.Tabsent Demo.acctB [])
              [Demo.attach Demo.T2 Demo.acctA [("Bucket", "x")]] t st)
    as (t' & st' & _ & _ & _ & _ & _ & _ & _ & _ & Hmissing).
  - reflexivity.
  - exact Hpre.
  - reflexivity.
  - eexists _, _. split; [vm_compute; reflexivity|].
    split; [|vm_compute; reflexivity].
    eapply Hmissing. vm_compute. reflexivity.
Defined.

(** An old version after an absent render aborts [Policy] with no missing
    list; a document without version is taken. *)
Lemma Policy_version_check_witness :
  Demo.Policy_of Demo.old_version
  = (None, Some "Unsupported policy version '2008-10-17'", []) ∧
  ∃ p, Demo.Policy_of Demo.no_version = (Some p, None, []) ∧
    AccountPolicies p !! "A"
    = Some [Demo.doc_for Demo.T1; mkDoc "" [];
            mkDoc "" [denyUnknownServices ["s3:*"]]; mkDoc "" [allowAll]].
Proof.
  split.
  - assert (∃ t st, Demo.loop_on Demo.old_version
                      [Demo.attach Demo.Tabsent Demo.acctB []] = (t, Ok st))
      as (t & st & Hpre) by (eexists _, _; vm_compute; reflexivity).
    destruct (Policy_version_check (E:=Demo.collaborators) (O:=Demo.forwards)
                Demo.old_version [Demo.attach Demo.Tabsent Demo.acctB []]
                (Demo.attach Demo.Told Demo.acctA [])
                [Demo.attach Demo.T1 Demo.acctA []] t st
                (mkDoc "2008-10-17" []) eq_refl Hpre eq_refl) as [Hbad _].
    destruct Hbad as [Hres _]; [done..|]. exact Hres.
  - eexists. split; vm_compute; reflexivity.
Defined.

(** ** Failures *)

Section Failures.
Context {E : Collaborators} {O : MapOrder}.

(** The three ways a turn of the loop fails. *)
Lemma loop_body_Err c st a e :
  rendered c a = Err e
  ∨ (∃ pd, rendered c a = Ok (Some pd) ∧
       Version pd ≠ "" ∧ Version pd ≠ IAMPolicyVersion ∧
       e = "Unsupported policy version '" +:+ Version pd +:+ "'")
  ∨ (∃ pd sr, rendered c a = Ok (Some pd) ∧
       (Version pd = "" ∨ Version pd = IAMPolicyVersion) ∧
       pt_ServiceRole (a_pt a) = Some sr ∧
       (renderServiceRole (a_pt a) c (a_account a) (a_vars a) = Err e ∨
        (∃ pol, renderServiceRole (a_pt a) c (a_account a) (a_vars a) = Ok pol) ∧
        renderServiceAssumeRole (a_pt a) c (a_account a) (a_vars a) = Err e)) ↔
  ∃ t', loop_body c st a = (t', Err e).
Proof.
  rewrite loop_body_cases. split.
  - intros [Hr|[(pd & Hr & Hv1 & Hv2 & ->)|(pd & sr & Hr & Hv & Hsr & Hrole)]];
      rewrite Hr.
    + eauto.
    + rewrite decide_True by done. eauto.
    + rewrite decide_False by (intros [? ?]; by destruct Hv).
      rewrite accept_cases, service_role_step_cases, Hsr.
      destruct Hrole as [->|[[pol ->] ->]]; eauto.
  - intros [t' Hbody].
    destruct (rendered c a) as [[pd|]|e1] eqn:Hr; [| done |left; congruence].
    right. case_decide as Hv.
    + left. exists pd. destruct Hv. split_and!; [done..|congruence].
    + right. rewrite accept_cases, service_role_step_cases in Hbody.
      destruct (pt_ServiceRole (a_pt a)) as [sr|]; [|done].
      exists pd, sr. split_and!; [done| |done|].
      * destruct (decide (Version pd = "")); [by left|].
        destruct (decide (Version pd = IAMPolicyVersion)); [by right|].
        destruct Hv; done.
      * destruct (renderServiceRole _ _ _ _) as [pol|e1]; [|left; congruence].
        right. split; [eauto|].
        destruct (renderServiceAssumeRole _ _ _ _) as [assume|e2];
          [done|congruence].
Qed.

(** C9. When the loop reaches an attachment at which the template render
    fails, or the version is unsupported, or a service-role render fails,
    [Policy] returns no aggregate, that error and no missing list, whatever
    the loop had recorded as missing before. When the loop ends and
    [compress] returns an error, [Policy] returns no aggregate, that error
    and the missing list the loop has built: the attachments whose render
    gave no document. *)
Theorem Policy_missing_on_failure c :
  (∀ l1 a l2 t st e,
     attachments c = l1 ++ a :: l2 →
     foldM (loop_body c) initial l1 = (t, Ok st) →
     (rendered c a = Err e
      ∨ (∃ pd, rendered c a = Ok (Some pd) ∧
           Version pd ≠ "" ∧ Version pd ≠ IAMPolicyVersion ∧
           e = "Unsupported policy version '" +:+ Version pd +:+ "'")
      ∨ (∃ pd sr, rendered c a = Ok (Some pd) ∧
           (Version pd = "" ∨ Version pd = IAMPolicyVersion) ∧
           pt_ServiceRole (a_pt a) = Some sr ∧
           (renderServiceRole (a_pt a) c (a_account a) (a_vars a) = Err e ∨
            (∃ pol, renderServiceRole (a_pt a) c (a_account a) (a_vars a)
                    = Ok pol) ∧
            renderServiceAssumeRole (a_pt a) c (a_account a) (a_vars a)
            = Err e))) →
     missing st = missing_of c l1 ∧
     Container_Policy c = (None, Some e, [])) ∧
  (∀ t st p' e,
     run_loop c = (t, Ok st) →
     compress (aggregate c st) = (p', Some e) →
     missing st = missing_of c (attachments c) ∧
     Container_Policy c = (None, Some e, missing_of c (attachments c))).
Proof.
  split.
  - intros l1 a l2 t st e Hl Hpre Hkind. split.
    + apply (inv_missing _ _ _ _ (loop_inv_run _ _ _ _ Hpre)).
    + apply (loop_body_Err c st) in Hkind as [t' Hbody].
      unfold Container_Policy.
      by rewrite (Policy_run_abort _ _ _ _ _ _ _ _ Hl Hpre Hbody).
  - intros t st p' e Hrun Hc.
    pose proof (inv_missing _ _ _ _ (loop_inv_run _ _ _ _ Hrun)) as Hm.
    split; [done|].
    unfold Container_Policy, Policy_run. by rewrite Hrun, Hc, Hm.
Qed.

(** C10. On a container without attachments [Policy] calls nothing but
    [compress], on the aggregate whose three maps are empty; when [compress]
    accepts that aggregate, [Policy] returns what [compress] left of it,
    which is the aggregate itself for a [compress] that leaves what it
    accepts unchanged, with no error and no missing list. *)
Theorem Policy_no_attachments c :
  attachments c = [] →
  Policy_trace c = [EvCompress (mkPolicy (c_amper c) ∅ ∅ ∅)] ∧
  Forall (λ ev, is_render_event ev = false) (Policy_trace c) ∧
  (∀ p', compress (mkPolicy (c_amper c) ∅ ∅ ∅) = (p', None) →
     Container_Policy c = (Some p', None, [])) ∧
  (compress_transparent →
   snd (compress (mkPolicy (c_amper c) ∅ ∅ ∅)) = None →
   Container_Policy c = (Some (mkPolicy (c_amper c) ∅ ∅ ∅), None, [])).
Proof.
  intros Hl.
  assert (run_loop c = ([], Ok initial)) as Hrun.
  { unfold run_loop. by rewrite Hl. }
  assert (aggregate c initial = mkPolicy (c_amper c) ∅ ∅ ∅) as Hagg.
  { unfold aggregate. cbn.
    pose proof (range_scopeMap_perm ∅) as Hperm.
    rewrite map_to_list_empty in Hperm.
    apply Permutation_nil_r in Hperm. by rewrite Hperm. }
  assert (Policy_trace c = [EvCompress (mkPolicy (c_amper c) ∅ ∅ ∅)]) as Htrace.
  { unfold Policy_trace, Policy_run. rewrite Hrun, Hagg.
    by destruct (compress _) as [p' [e|]]. }
  split_and!.
  - done.
  - rewrite Htrace. by repeat constructor.
  - intros p' Hc. unfold Container_Policy, Policy_run.
    by rewrite Hrun, Hagg, Hc.
  - intros Htr Hc. unfold Container_Policy, Policy_run. rewrite Hrun, Hagg.
    destruct (compress _) as [p' [e|]] eqn:Hcomp; [done|].
    by apply Htr in Hcomp as ->.
Qed.

End Failures.

(** After an absent render has been recorded, a failing render drops the
    missing list; a failing [compress] returns it. *)
Lemma Policy_missing_on_failure_witness :
  (∃ t st, Demo.loop_on Demo.broken_render
             [Demo.attach Demo.Tabsent Demo.acctB []] = (t, Ok st) ∧
     missing st = [Demo.attach Demo.Tabsent Demo.acctB []] ∧
     Demo.Policy_of Demo.broken_render = (None, Some "render failed", [])) ∧
  Container_Policy (E:=Demo.rejecting) (O:=Demo.forwards) Demo.only_absent
  = (None, Some "policy too large", [Demo.attach Demo.Tabsent Demo.acctB []]).
Proof.
  split.
  - assert (∃ t st, Demo.loop_on Demo.broken_render
                      [Demo.attach Demo.Tabsent Demo.acctB []] = (t, Ok st))
      as (t & st & Hpre) by (eexists _, _; vm_compute; reflexivity).
    exists t, st. split; [exact Hpre|].
    destruct (Policy_missing_on_failure (E:=Demo.collaborators)
                (O:=Demo.forwards) Demo.broken_render) as [Hloop _].
    destruct (Hloop [Demo.attach Demo.Tabsent Demo.acctB []]
                (Demo.attach Demo.Tbroken Demo.acctA []) [] t st
                "render failed" eq_refl Hpre) as [Hm Hres].
    + by left.
    + split; [rewrite Hm; vm_compute; reflexivity | exact Hres].
  - destruct (Policy_missing_on_failure (E:=Demo.rejecting)
                (O:=Demo.forwards) Demo.only_absent) as [_ Hcompress].
    assert (∃ t st, run_loop (E:=Demo.rejecting) Demo.only_absent = (t, Ok st))
      as (t & st & Hrun) by (eexists _, _; vm_compute; reflexivity).
    destruct (Hcompress t st _ "policy too large" Hrun eq_refl) as [_ Hres].
    exact Hres.
Defined.

(** The empty container of the demonstration registry. *)
Lemma Policy_no_attachments_witness :
  Demo.Policy_of Demo.empty_container = (Some (mkPolicy 0 ∅ ∅ ∅), None, []) ∧
  Policy_trace (E:=Demo.collaborators) (O:=Demo.forwards) Demo.empty_container
  = [EvCompress (mkPolicy 0 ∅ ∅ ∅)].
Proof.
  destruct (Policy_no_attachments (E:=Demo.collaborators) (O:=Demo.forwards)
              Demo.empty_container eq_refl) as (Htrace & _ & _ & Hres).
  split; [|exact Htrace].
  apply Hres; [exact Demo_transparent | reflexivity].
Defined.

(** ** Service roles *)

Section ServiceRoles.
Context {E : Collaborators} {O : MapOrder}.

Lemma filter_none {A} (P : A → Prop) `{∀ x, Decision (P x)} (l : list A) :
  Forall (λ x, ¬ P x) l → filter P l = [].
Proof.
  induction 1 as [|x l Hx _ IH]; [done|]. by rewrite filter_cons_False.
Qed.

Lemma role_event_present c a b :
  EvRenderServiceRole a ∈ events_of c b
  ∨ EvRenderServiceAssumeRole a ∈ events_of c b →
  is_present c a = true.
Proof.
  unfold events_of, is_present.
  intros [Hev|Hev]; apply elem_of_cons in Hev as [?|Hev]; try done;
    (destruct (rendered c b) as [[pd|]|e] eqn:Hb;
     [destruct (pt_ServiceRole (a_pt b))|..];
     repeat (apply elem_of_cons in Hev as [Heq|Hev];
             [try done; injection Heq as ->; by rewrite Hb|]);
     by apply elem_of_nil in Hev).
Qed.

(** C8 (amended). When the loop reaches an attachment whose template
    declares a service role and whose render gave a document that passed
    the version check, the role policy and then the assume-role policy are
    rendered. A failure of either render aborts [Policy] with that error.
    Otherwise the pair is put in the account's bucket under the role's
    name, in place of what the bucket had under that name. In the output
    the entry under an account and a role name is the pair of the last
    attachment that stored one there: the pair of this attachment when no
    later one stores under the same account and name. When the render gave
    no document, the turn calls only the template's render and the warning,
    leaves every entry of every bucket as it was, and a [Policy] that
    returns an aggregate has rendered neither role document for the
    attachment. *)
Theorem Policy_service_role c l1 a l2 t st sr :
  attachments c = l1 ++ a :: l2 →
  foldM (loop_body c) initial l1 = (t, Ok st) →
  pt_ServiceRole (a_pt a) = Some sr →
  (∀ pd,
     rendered c a = Ok (Some pd) →
     Version pd = "" ∨ Version pd = IAMPolicyVersion →
     (∀ e, renderServiceRole (a_pt a) c (a_account a) (a_vars a) = Err e →
        Container_Policy c = (None, Some e, []) ∧
        Policy_trace c = t ++ [EvRenderTemplate a; EvRenderServiceRole a]) ∧
     (∀ pol e,
        renderServiceRole (a_pt a) c (a_account a) (a_vars a) = Ok pol →
        renderServiceAssumeRole (a_pt a) c (a_account a) (a_vars a) = Err e →
        Container_Policy c = (None, Some e, []) ∧
        Policy_trace c
        = t ++ [EvRenderTemplate a; EvRenderServiceRole a;
                EvRenderServiceAssumeRole a]) ∧
     (∀ pol assume,
        renderServiceRole (a_pt a) c (a_account a) (a_vars a) = Ok pol →
        renderServiceAssumeRole (a_pt a) c (a_account a) (a_vars a)
        = Ok assume →
        ∃ st',
          loop_body c st a
          = ([EvRenderTemplate a; EvRenderServiceRole a;
              EvRenderServiceAssumeRole a], Ok st') ∧
          serviceRolePolicies st' !! acc_Name (a_account a)
          = Some (<[sr_Name sr := mkServiceRolePolicy pol assume]>
                    (default ∅
                       (serviceRolePolicies st !! acc_Name (a_account a)))) ∧
          ∀ p m,
            compress_transparent →
            Container_Policy c = (Some p, None, m) →
            EvRenderServiceRole a ∈ Policy_trace c ∧
            EvRenderServiceAssumeRole a ∈ Policy_trace c ∧
            ServiceRolePolicies p !! acc_Name (a_account a)
              ≫= (.!! sr_Name sr)
            = last (service_pairs c (acc_Name (a_account a)) (sr_Name sr)
                      (attachments c)) ∧
            (Forall (λ b, ¬ stores c (acc_Name (a_account a)) (sr_Name sr) b)
               l2 →
             ServiceRolePolicies p !! acc_Name (a_account a)
               ≫= (.!! sr_Name sr)
             = Some (mkServiceRolePolicy pol assume)))) ∧
  (rendered c a = Ok None →
     (∃ st',
        loop_body c st a
        = ([EvRenderTemplate a;
            EvPrintf ("[WARN] Policy template '" +:+ pt_Key (a_pt a)
                      +:+ "' not found" +:+ newline)], Ok st') ∧
        ∀ acct role,
          serviceRolePolicies st' !! acct ≫= (.!! role)
          = serviceRolePolicies st !! acct ≫= (.!! role)) ∧
     (∀ acct role, ¬ stores c acct role a) ∧
     (∀ p m,
        Container_Policy c = (Some p, None, m) →
        (EvRenderServiceRole a ∉ Policy_trace c) ∧
        (EvRenderServiceAssumeRole a ∉ Policy_trace c))).
Proof.
  intros Hl Hpre Hsr. split.
  - intros pd Hpd Hv.
    pose proof (loop_body_cases c st a) as Hbody.
    rewrite Hpd in Hbody.
    rewrite decide_False in Hbody by (intros [? ?]; by destruct Hv).
    rewrite accept_cases, service_role_step_cases, Hsr in Hbody.
    split_and!.
    + intros e He. rewrite He in Hbody.
      unfold Container_Policy, Policy_trace.
      by rewrite (Policy_run_abort _ _ _ _ _ _ _ _ Hl Hpre Hbody).
    + intros pol e Hp He. rewrite Hp, He in Hbody.
      unfold Container_Policy, Policy_trace.
      by rewrite (Policy_run_abort _ _ _ _ _ _ _ _ Hl Hpre Hbody).
    + intros pol assume Hp Ha. rewrite Hp, Ha in Hbody.
      eexists. split; [exact Hbody|]. split.
      { cbn. by rewrite lookup_alter, decide_True, ensure_lookup, decide_True. }
      intros p m Htr (tf & stf & Hrun & Hinv & Hc & -> & Htrace)%Policy_success.
      apply Htr in Hc as ->.
      pose proof (aggregate_lookup c stf "") as (_ & _ & -> & _).
      assert (stores c (acc_Name (a_account a)) (sr_Name sr) a) as Hstores.
      { unfold stores, is_present. by rewrite Hpd, Hsr. }
      assert (service_pair c a = Some (mkServiceRolePolicy pol assume)) as Hpair.
      { unfold service_pair. by rewrite Hp, Ha. }
      assert (∀ ev, ev ∈ events_of c a → ev ∈ Policy_trace c) as Hev.
      { intros ev Hin. rewrite Htrace, (inv_trace _ _ _ _ Hinv).
        apply elem_of_app. left. apply list_elem_of_bind. exists a.
        split; [done|]. rewrite Hl. apply elem_of_app. right. by left. }
      split_and!.
      * apply Hev. unfold events_of. rewrite Hpd, Hsr. right. by left.
      * apply Hev. unfold events_of. rewrite Hpd, Hsr. right. right. by left.
      * apply (inv_srp _ _ _ _ Hinv).
      * intros Hlater. rewrite (inv_srp _ _ _ _ Hinv), Hl.
        unfold service_pairs.
        rewrite filter_app, filter_cons_True, (filter_none _ l2) by done.
        rewrite omap_app. cbn. rewrite Hpair. apply last_snoc.
  - intros Habs.
    assert (is_present c a = false) as Hnp.
    { unfold is_present. by rewrite Habs. }
    split_and!.
    + pose proof (loop_body_cases c st a) as Hbody. rewrite Habs in Hbody.
      eexists. split; [exact Hbody|]. intros acct role. apply ensure_bucket.
    + intros acct role (_ & Hp & _). congruence.
    + intros p m (tf & stf & _ & Hinv & _ & _ & Htrace)%Policy_success.
      rewrite Htrace, (inv_trace _ _ _ _ Hinv).
      split; intros [Hev|Hev]%elem_of_app.
      * apply list_elem_of_bind in Hev as (b & Hev & _).
        assert (is_present c a = true) by (eapply role_event_present; eauto).
        congruence.
      * by apply list_elem_of_singleton in Hev.
      * apply list_elem_of_bind in Hev as (b & Hev & _).
        assert (is_present c a = true) by (eapply role_event_present; eauto).
        congruence.
      * by apply list_elem_of_singleton in Hev.
Qed.

End ServiceRoles.

(** Two templates with role "worker" attached to "A": the entry in the
    output is the pair of the second; the absent render on "B" between them
    stores nothing. A role policy that fails to render aborts [Policy]. *)
Lemma Policy_service_role_witness :
  (∃ p, Demo.Policy_of Demo.two_workers
        = (Some p, None, [Demo.attach Demo.Tabsent Demo.acctB []]) ∧
     ServiceRolePolicies p !! "A" ≫= (.!! "worker")
     = service_pair (E:=Demo.collaborators) Demo.two_workers
         (Demo.attach Demo.Tworker2 Demo.acctA []) ∧
     ServiceRolePolicies p !! "B" = Some ∅) ∧
  Demo.Policy_of Demo.broken_role = (None, Some "role failed", []).
Proof.
  split.
  2: { assert (∃ t st, Demo.loop_on Demo.broken_role
                         [Demo.attach Demo.Tabsent Demo.acctB []] = (t, Ok st))
         as (t & st & Hpre) by (eexists _, _; vm_compute; reflexivity).
       destruct (Policy_service_role (E:=Demo.collaborators) (O:=Demo.forwards)
                   Demo.broken_role [Demo.attach Demo.Tabsent Demo.acctB []]
                   (Demo.attach Demo.Tbadrole Demo.acctA []) [] t st
                   (mkServiceRole "worker") eq_refl Hpre eq_refl)
         as (Hpresent & _).
       destruct (Hpresent (Demo.doc_for Demo.Tbadrole) eq_refl
                   (or_intror eq_refl)) as (Hfail & _).
       exact (proj1 (Hfail "role failed" eq_refl)). }
  assert (∃ p, Demo.Policy_of Demo.two_workers
               = (Some p, None, [Demo.attach Demo.Tabsent Demo.acctB []]))
    as [p Hrun] by (eexists; vm_compute; reflexivity).
  assert (∃ t st, Demo.loop_on Demo.two_workers
                    [Demo.attach Demo.Tworker Demo.acctA [];
                     Demo.attach Demo.Tabsent Demo.acctB []] = (t, Ok st))
    as (t & st & Hpre) by (eexists _, _; vm_compute; reflexivity).
  destruct (Policy_service_role (E:=Demo.collaborators) (O:=Demo.forwards)
              Demo.two_workers
              [Demo.attach Demo.Tworker Demo.acctA [];
               Demo.attach Demo.Tabsent Demo.acctB []]
              (Demo.attach Demo.Tworker2 Demo.acctA []) [] t st
              (mkServiceRole "worker") eq_refl Hpre eq_refl)
    as (Hpresent & _).
  destruct (Hpresent (Demo.doc_for Demo.Tworker2) eq_refl (or_intror eq_refl))
    as (_ & _ & Hstore).
  destruct (Hstore _ _ eq_refl eq_refl) as (st' & _ & _ & Hout).
  destruct (Hout p _ Demo_transparent Hrun) as (_ & _ & _ & Hlast).
  exists p. split; [exact Hrun|]. split.
  - exact (Hlast (Forall_nil_2 _)).
  - apply (f_equal (λ r, match r.1.1 with
                         | Some q => ServiceRolePolicies q !! "B"
                         | None => None
                         end)) in Hrun.
    vm_compute in Hrun. symmetry. exact Hrun.
Defined.

(** C8 as stated fails for an attachment whose render gives no document:
    [Demo.Tabsent] declares the role "worker", yet after [Policy] the bucket
    of "B" is empty. *)
Lemma Policy_service_role_skipped_when_absent :
  ∃ p m, Demo.Policy_of Demo.only_absent = (Some p, None, m) ∧
    pt_ServiceRole Demo.Tabsent = Some (mkServiceRole "worker") ∧
    ServiceRolePolicies p !! "B" = Some ∅ ∧
    ¬ every_service_role_stored Demo.only_absent
        (Policy_trace (E:=Demo.collaborators) (O:=Demo.forwards)
           Demo.only_absent) p.
Proof.
  eexists _, _. split; [vm_compute; reflexivity|].
  split; [reflexivity|]. split; [vm_compute; reflexivity|].
  intros Hclaim.
  destruct (Hclaim (Demo.attach Demo.Tabsent Demo.acctB [])
              (mkServiceRole "worker")) as (_ & _ & [srp Hsrp]).
  - by apply list_elem_of_singleton.
  - reflexivity.
  - by vm_compute in Hsrp.
Qed.

(** * Further properties *)

(** ** The registry and its containers *)

(** X1. [AddPolicyTemplate] keeps the registry keyed and owned: after the call
    every template is still stored under its own key and carries both
    markers, the stamped one included. *)
Theorem AddPolicyTemplate_keeps_registry c k pt k' pt' err :
  AddPolicyTemplate c k pt = (k', pt', err) →
  registry_keyed k → registry_owned k →
  registry_keyed k' ∧ registry_owned k' ∧
  (err = None →
     policyTemplates k' !! pt_Key pt = Some pt' ∧
     pt_container pt' = Some (c_self c) ∧ pt_amper pt' = Some (c_amper c)).
Proof.
  intros Hrun Hkeyed Howned.
  destruct (policyTemplates k !! pt_Key pt) as [old|] eqn:Hk.
  { rewrite AddPolicyTemplate_duplicate in Hrun by (rewrite Hk; eauto).
    by simplify_eq. }
  destruct (decide (pt_container pt ≠ None ∨ pt_amper pt ≠ None)) as [Hown|Hfree].
  { rewrite AddPolicyTemplate_owned in Hrun by done. by simplify_eq. }
  assert (pt_container pt = None ∧ pt_amper pt = None) as [Hc Ha].
  { split; apply dec_stable; intros ?; apply Hfree; auto. }
  rewrite AddPolicyTemplate_fresh in Hrun by done.
  cbv zeta in Hrun. simplify_eq. unfold registry_keyed, registry_owned. cbn.
  split_and!.
  - by apply map_Forall_insert_2.
  - by apply map_Forall_insert_2.
  - intros _. by rewrite lookup_insert_eq.
Qed.

Lemma AddPolicyTemplate_keeps_registry_witness :
  ∃ k' pt',
    AddPolicyTemplate Demo.empty_container Demo.kernel0 Demo.fresh
    = (k', pt', None) ∧
    registry_keyed k' ∧ registry_owned k' ∧
    policyTemplates k' !! "fresh" = Some pt'.
Proof.
  eexists _, _. split; [reflexivity|].
  destruct (AddPolicyTemplate_keeps_registry Demo.empty_container
              Demo.kernel0 Demo.fresh _ _ _ eq_refl)
    as (Hkeyed & Howned & Hnew).
  - intros key pt Hpt. apply elem_of_list_to_map_2 in Hpt.
    repeat (apply elem_of_cons in Hpt as [[= -> ->]|Hpt]; [reflexivity|]).
    by apply elem_of_nil in Hpt.
  - intros key pt Hpt. apply elem_of_list_to_map_2 in Hpt.
    repeat (apply elem_of_cons in Hpt as [[= -> ->]|Hpt]; [done|]).
    by apply elem_of_nil in Hpt.
  - split; [exact Hkeyed|]. split; [exact Howned|].
    exact (proj1 (Hnew eq_refl)).
Defined.

(** X2. [AddPolicyTemplate] never removes or replaces what the registry holds:
    every template found before the call is found unchanged after it, also
    under the key of the submitted template, every other key is as before,
    the accounts are untouched, and the submitted template keeps its key,
    variables, scope and service role. *)
Theorem AddPolicyTemplate_frame c k pt k' pt' err :
  AddPolicyTemplate c k pt = (k', pt', err) →
  policyTemplates k ⊆ policyTemplates k' ∧
  accounts k' = accounts k ∧
  (∀ key, key ≠ pt_Key pt →
     policyTemplates k' !! key = policyTemplates k !! key) ∧
  (∀ old, policyTemplates k !! pt_Key pt = Some old →
     policyTemplates k' !! pt_Key pt = Some old ∧ err ≠ None) ∧
  pt_Key pt' = pt_Key pt ∧ pt_Vars pt' = pt_Vars pt ∧
  pt_Scope pt' = pt_Scope pt ∧ pt_ServiceRole pt' = pt_ServiceRole pt.
Proof.
  intros Hrun.
  destruct (policyTemplates k !! pt_Key pt) as [old|] eqn:Hk.
  { rewrite AddPolicyTemplate_duplicate in Hrun by (rewrite Hk; eauto).
    simplify_eq. split_and!; try done. by intros old' [= <-]. }
  destruct (decide (pt_container pt ≠ None ∨ pt_amper pt ≠ None)) as [Hown|Hfree].
  { rewrite AddPolicyTemplate_owned in Hrun by done.
    simplify_eq. split_and!; done. }
  assert (pt_container pt = None ∧ pt_amper pt = None) as [Hc Ha].
  { split; apply dec_stable; intros ?; apply Hfree; auto. }
  rewrite AddPolicyTemplate_fresh in Hrun by done.
  cbv zeta in Hrun. simplify_eq. cbn. split_and!; try done.
  - by apply insert_subseteq.
  - intros key Hne. by rewrite lookup_insert_ne.
Qed.

Lemma AddPolicyTemplate_frame_witness :
  ∃ k' pt' err,
    AddPolicyTemplate Demo.empty_container Demo.kernel0 Demo.fresh
    = (k', pt', err) ∧
    policyTemplates k' !! "T1" = Some Demo.T1 ∧
    accounts k' = accounts Demo.kernel0.
Proof.
  eexists _, _, _. split; [reflexivity|].
  destruct (AddPolicyTemplate_frame Demo.empty_container Demo.kernel0
              Demo.fresh _ _ _ eq_refl) as (_ & Hacc & Hother & _).
  split; [|exact Hacc].
  rewrite (Hother "T1") by done. reflexivity.
Defined.

Lemma Demo_kernel0_keyed : registry_keyed Demo.kernel0.
Proof.
  intros key pt Hpt. apply elem_of_list_to_map_2 in Hpt.
  repeat (apply elem_of_cons in Hpt as [[= -> ->]|Hpt]; [reflexivity|]).
  by apply elem_of_nil in Hpt.
Qed.

Lemma AddPolicyTemplate_None c k pt k' pt' :
  AddPolicyTemplate c k pt = (k', pt', None) →
  policyTemplates k !! pt_Key pt = None ∧
  pt_container pt = None ∧ pt_amper pt = None ∧
  pt' = mkPolicyTemplate (pt_Key pt) (pt_Vars pt) (pt_Scope pt)
          (pt_ServiceRole pt) (Some (c_self c)) (Some (c_amper c)) ∧
  k' = mkKernel (<[pt_Key pt := pt']> (policyTemplates k)) (accounts k).
Proof.
  intros Hrun.
  destruct (policyTemplates k !! pt_Key pt) as [old|] eqn:Hk.
  { by rewrite AddPolicyTemplate_duplicate in Hrun by (rewrite Hk; eauto). }
  destruct (decide (pt_container pt ≠ None ∨ pt_amper pt ≠ None)) as [Ho|Hfree].
  { by rewrite AddPolicyTemplate_owned in Hrun by done. }
  assert (pt_container pt = None ∧ pt_amper pt = None) as [Hc Ha].
  { split; apply dec_stable; intros ?; apply Hfree; auto. }
  rewrite AddPolicyTemplate_fresh in Hrun by done.
  cbv zeta in Hrun. by simplify_eq.
Qed.

(** X3. A template can be attached exactly from the moment it is registered:
    with its key free in the registry, [AddAttachment] under that key fails
    with the unknown-template error; after a successful [AddPolicyTemplate]
    the same call, from any container of the registry, appends an attachment
    of the stamped template, provided the account is known and the
    variables cover the template's list. *)
Theorem register_then_attach c k pt k' pt' c2 accountName account vars :
  AddPolicyTemplate c k pt = (k', pt', None) →
  accounts k !! accountName = Some account →
  (∀ v, v ∈ pt_Vars pt → is_Some (vars !! v)) →
  AddAttachment c2 k (pt_Key pt) accountName vars
  = (c2, Err ("cannot add attachment, unknown policy template '"
              +:+ pt_Key pt +:+ "' in container '" +:+ ID c2 +:+ "'")) ∧
  AddAttachment c2 k' (pt_Key pt) accountName vars
  = (mkContainer (c_self c2) (c_amper c2) (ID c2)
       (attachments c2 ++ [mkAttachment pt' account vars]),
     Ok (mkAttachment pt' account vars)) ∧
  pt_container pt' = Some (c_self c) ∧ pt_amper pt' = Some (c_amper c).
Proof.
  intros (Hk & _ & _ & Hpt' & ->)%AddPolicyTemplate_None Hacc Hvars.
  split_and!.
  - unfold AddAttachment. by rewrite Hk.
  - unfold AddAttachment. cbn. rewrite lookup_insert_eq, Hacc.
    assert (first_unset (pt_Vars pt') vars = None) as ->; [|done].
    apply first_unset_None. by rewrite Hpt'.
  - by rewrite Hpt'.
  - by rewrite Hpt'.
Qed.

Lemma register_then_attach_witness :
  ∃ k' pt',
    AddPolicyTemplate Demo.empty_container Demo.kernel0 Demo.fresh
    = (k', pt', None) ∧
    AddAttachment Demo.empty_container Demo.kernel0 "fresh" "A"
      (list_to_map [("Bucket", "b"); ("Region", "r")])
    = (Demo.empty_container,
       Err "cannot add attachment, unknown policy template 'fresh' in container 'c1'") ∧
    AddAttachment Demo.empty_container k' "fresh" "A"
      (list_to_map [("Bucket", "b"); ("Region", "r")])
    = (Demo.container_of
         [Demo.attach pt' Demo.acctA [("Bucket", "b"); ("Region", "r")]],
       Ok (Demo.attach pt' Demo.acctA [("Bucket", "b"); ("Region", "r")])).
Proof.
  eexists _, _. split; [reflexivity|].
  destruct (register_then_attach Demo.empty_container Demo.kernel0 Demo.fresh
              _ _ Demo.empty_container "A" Demo.acctA
              (list_to_map [("Bucket", "b"); ("Region", "r")]) eq_refl eq_refl)
    as (Hbefore & Hafter & _).
  - intros v Hv.
    repeat (apply elem_of_cons in Hv as [->|Hv]; [by eexists|]).
    by apply elem_of_nil in Hv.
  - split; [exact Hbefore | exact Hafter].
Defined.

Lemma AddAttachment_Ok c k policyTemplateID accountName vars c' a :
  AddAttachment c k policyTemplateID accountName vars = (c', Ok a) →
  ∃ pt account,
    policyTemplates k !! policyTemplateID = Some pt ∧
    accounts k !! accountName = Some account ∧
    first_unset (pt_Vars pt) vars = None ∧
    a = mkAttachment pt account vars ∧
    c' = mkContainer (c_self c) (c_amper c) (ID c) (attachments c ++ [a]).
Proof.
  unfold AddAttachment. intros Hrun.
  destruct (policyTemplates k !! policyTemplateID) as [pt|]; [|done].
  destruct (accounts k !! accountName) as [account|]; [|done].
  destruct (first_unset (pt_Vars pt) vars) eqn:Hv; [done|].
  simplify_eq. by exists pt, account.
Qed.

Lemma AddAttachment_Err c k policyTemplateID accountName vars c' e :
  AddAttachment c k policyTemplateID accountName vars = (c', Err e) → c' = c.
Proof.
  unfold AddAttachment. intros Hrun.
  destruct (policyTemplates k !! policyTemplateID) as [pt|]; [|by simplify_eq].
  destruct (accounts k !! accountName) as [account|]; [|by simplify_eq].
  destruct (first_unset (pt_Vars pt) vars); by simplify_eq.
Qed.

(** X4. In a keyed registry the attachment [AddAttachment] returns prints, by
    [String], as the template key it was asked for; it is the last
    attachment of the container, it holds the variables as given and the
    account the registry has under the given name. *)
Theorem AddAttachment_String c k policyTemplateID accountName vars c' a :
  registry_keyed k →
  AddAttachment c k policyTemplateID accountName vars = (c', Ok a) →
  Attachment_String a = policyTemplateID ∧
  last (attachments c') = Some a ∧
  a_vars a = vars ∧
  accounts k !! accountName = Some (a_account a) ∧
  policyTemplates k !! Attachment_String a = Some (a_pt a).
Proof.
  intros Hkeyed (pt & account & Hpt & Hacc & _ & -> & ->)%AddAttachment_Ok.
  pose proof (Hkeyed _ _ Hpt) as Hkey. unfold Attachment_String. cbn.
  split_and!; try done.
  - apply last_snoc.
  - by rewrite Hkey.
Qed.

Lemma AddAttachment_String_witness :
  ∃ c' a,
    AddAttachment Demo.empty_container Demo.kernel0 "T2" "A"
      (list_to_map [("Bucket", "x")]) = (c', Ok a) ∧
    Attachment_String a = "T2".
Proof.
  eexists _, _. split; [reflexivity|].
  exact (proj1 (AddAttachment_String Demo.empty_container Demo.kernel0 "T2" "A"
                  (list_to_map [("Bucket", "x")]) _ _
                  Demo_kernel0_keyed eq_refl)).
Defined.

(** X5. [AddAttachment] keeps a container well formed: when every attachment of
    the container binds all variables its template requires and refers to
    a template and an account of the registry, the same holds after the
    call, whether it succeeds or fails. *)
Theorem AddAttachment_keeps_wf c k policyTemplateID accountName vars c' r :
  container_wf k c →
  AddAttachment c k policyTemplateID accountName vars = (c', r) →
  container_wf k c' ∧
  (∀ a, r = Ok a → attachment_bound a ∧ attachment_registered k a).
Proof.
  intros Hwf Hrun. destruct r as [a|e].
  - apply AddAttachment_Ok in Hrun
      as (pt & account & Hpt & Hacc & Hvars & -> & ->).
    assert (attachment_bound (mkAttachment pt account vars)
            ∧ attachment_registered k (mkAttachment pt account vars)) as Hnew.
    { split.
      - intros v Hv. cbn in *. by apply (first_unset_None (pt_Vars pt)).
      - split; cbn; eauto. }
    split.
    + unfold container_wf. cbn. apply Forall_app. split; [done|].
      by apply Forall_singleton.
    + by intros a [= <-].
  - apply AddAttachment_Err in Hrun as ->. by split.
Qed.

Lemma AddAttachment_keeps_wf_witness :
  ∃ c' r,
    AddAttachment Demo.empty_container Demo.kernel0 "T2" "A"
      (list_to_map [("Bucket", "x")]) = (c', r) ∧
    container_wf Demo.kernel0 c'.
Proof.
  eexists _, _. split; [reflexivity|].
  exact (proj1 (AddAttachment_keeps_wf Demo.empty_container Demo.kernel0
                  "T2" "A" (list_to_map [("Bucket", "x")]) _ _
                  (Forall_nil_2 _) eq_refl)).
Defined.

(** X6. Registering a template disturbs no container: a container that was
    well formed for the registry stays well formed, and [AddAttachment]
    under any key other than the submitted template's gives the result it
    gave before. *)
Theorem AddPolicyTemplate_keeps_containers c k pt k' pt' err c2 :
  AddPolicyTemplate c k pt = (k', pt', err) →
  container_wf k c2 →
  container_wf k' c2 ∧
  ∀ policyTemplateID accountName vars,
    policyTemplateID ≠ pt_Key pt →
    AddAttachment c2 k' policyTemplateID accountName vars
    = AddAttachment c2 k policyTemplateID accountName vars.
Proof.
  intros Hrun Hwf.
  assert (policyTemplates k ⊆ policyTemplates k' ∧ accounts k' = accounts k ∧
          ∀ key, key ≠ pt_Key pt →
            policyTemplates k' !! key = policyTemplates k !! key)
    as (Hsub & Hacc & Hother).
  { destruct err as [e|].
    - assert (k' = k) as ->; [|done].
      destruct (policyTemplates k !! pt_Key pt) as [old|] eqn:Hk.
      + rewrite AddPolicyTemplate_duplicate in Hrun by (rewrite Hk; eauto).
        by simplify_eq.
      + destruct (decide (pt_container pt ≠ None ∨ pt_amper pt ≠ None)).
        * rewrite AddPolicyTemplate_owned in Hrun by done. by simplify_eq.
        * unfold AddPolicyTemplate in Hrun.
          rewrite decide_False in Hrun by (rewrite Hk; by intros [? ?]).
          by rewrite decide_False in Hrun by done.
    - apply AddPolicyTemplate_None in Hrun as (Hk & _ & _ & _ & ->). cbn.
      split_and!; [by apply insert_subseteq|done|].
      intros key Hne. by rewrite lookup_insert_ne. }
  split.
  - unfold container_wf in *. eapply Forall_impl; [exact Hwf|].
    intros a (Hbound & (key & Hkey) & (name & Hname)). split; [done|]. split.
    + exists key. by eapply lookup_weaken.
    + exists name. by rewrite Hacc.
  - intros policyTemplateID accountName vars Hne. unfold AddAttachment.
    by rewrite (Hother _ Hne), Hacc.
Qed.

Lemma AddPolicyTemplate_keeps_containers_witness :
  ∃ k' pt' err,
    AddPolicyTemplate Demo.empty_container Demo.kernel0 Demo.fresh
    = (k', pt', err) ∧
    AddAttachment Demo.empty_container k' "T1" "B" ∅
    = AddAttachment Demo.empty_container Demo.kernel0 "T1" "B" ∅.
Proof.
  eexists _, _, _. split; [reflexivity|].
  destruct (AddPolicyTemplate_keeps_containers Demo.empty_container
              Demo.kernel0 Demo.fresh _ _ _ Demo.empty_container eq_refl
              (Forall_nil_2 _)) as [_ Hframe].
  by apply Hframe.
Defined.

(** ** More on the first loop *)

Section LoopMore.
Context {E : Collaborators}.

(** Every attachment the loop got past rendered to nothing, or to a
    document of an accepted version with both role documents rendered when
    its template declares a role. *)
Lemma loop_turns_ok c l t st :
  foldM (loop_body c) initial l = (t, Ok st) →
  Forall (λ a, is_absent c a = true ∨
               ∃ pd, rendered c a = Ok (Some pd) ∧
                 (Version pd = "" ∨ Version pd = IAMPolicyVersion) ∧
                 (pt_ServiceRole (a_pt a) ≠ None → is_Some (service_pair c a)))
    l.
Proof.
  revert t st. induction l as [|a l IH] using rev_ind; intros t st.
  - intros _. constructor.
  - intros (t1 & st1 & t2 & Hl & Ha & ->)%foldM_snoc_Ok.
    apply Forall_app. split; [by eapply IH|].
    apply Forall_singleton. by eapply loop_body_rendered.
Qed.

Lemma foldM_Err_inv c st0 l t e :
  foldM (loop_body c) st0 l = (t, Err e) →
  ∃ l1 a l2 t1 st t2,
    l = l1 ++ a :: l2 ∧
    foldM (loop_body c) st0 l1 = (t1, Ok st) ∧
    loop_body c st a = (t2, Err e) ∧ t = t1 ++ t2.
Proof.
  revert st0 t. induction l as [|a l IH]; intros st0 t; [done|].
  cbn -[loop_body]. intros [Hbody|(t1 & st & t2 & Hbody & Hrest & ->)]%M_bind_Err.
  - exists [], a, l, [], st0, t. by split_and!.
  - destruct (IH _ _ Hrest) as (l1 & b & l2 & u1 & st1 & u2 & -> & Hl1 & Hb & ->).
    exists (a :: l1), b, l2, (t1 ++ u1), st1, u2. split_and!; try done.
    + cbn -[loop_body]. apply M_bind_Ok. by exists t1, st, u1.
    + by rewrite (assoc_L (++)).
Qed.

Lemma events_of_rendered c a :
  omap rendered_attachment (events_of c a) = [a] ∧
  Forall (λ ev, is_compress_event ev = false) (events_of c a).
Proof.
  unfold events_of.
  destruct (rendered c a) as [[pd|]|e]; [destruct (pt_ServiceRole (a_pt a))|..];
    split; by repeat constructor.
Qed.

Lemma events_of_all c l :
  omap rendered_attachment (l ≫= events_of c) = l ∧
  Forall (λ ev, is_compress_event ev = false) (l ≫= events_of c).
Proof.
  induction l as [|a l [IH1 IH2]]; [by split|].
  destruct (events_of_rendered c a) as [H1 H2].
  change ((a :: l) ≫= events_of c) with (events_of c a ++ (l ≫= events_of c)).
  split.
  - by rewrite omap_app, H1, IH1.
  - apply Forall_app. by split.
Qed.

(** The calls of a turn that fails: the template's render, then at most the
    two role renders. *)
Lemma failing_turn_events c st a t e :
  loop_body c st a = (t, Err e) →
  omap rendered_attachment t = [a] ∧
  Forall (λ ev, is_compress_event ev = false) t.
Proof.
  rewrite loop_body_cases.
  destruct (rendered c a) as [[pd|]|e1]; [|done|].
  - case_decide.
    + intros [= <- _]. split; by repeat constructor.
    + rewrite accept_cases, service_role_step_cases.
      destruct (pt_ServiceRole (a_pt a)) as [sr|]; [|done].
      destruct (renderServiceRole _ _ _ _) as [pol|e1].
      * destruct (renderServiceAssumeRole _ _ _ _) as [assume|e2]; [done|].
        intros [= <- _]. split; by repeat constructor.
      * intros [= <- _]. split; by repeat constructor.
  - intros [= <- _]. split; by repeat constructor.
Qed.

End LoopMore.

(** ** More on the output of [Policy] *)

Section PolicyMore.
Context {E : Collaborators} {O : MapOrder}.

Lemma Policy_trace_Ok c t st :
  run_loop c = (t, Ok st) →
  Policy_trace c = t ++ [EvCompress (aggregate c st)] ∧
  t = attachments c ≫= events_of c ∧
  omap rendered_attachment (Policy_trace c) = attachments c.
Proof.
  intros Hrun.
  pose proof (inv_trace _ _ _ _ (loop_inv_run _ _ _ _ Hrun)) as Ht.
  destruct (events_of_all c (attachments c)) as [Hall _].
  assert (Policy_trace c = t ++ [EvCompress (aggregate c st)]) as Htrace.
  { unfold Policy_trace, Policy_run. rewrite Hrun.
    by destruct (compress _) as [p' [e|]]. }
  split_and!; [done..|].
  rewrite Htrace, omap_app, Ht, Hall. cbn. by rewrite (right_id_L [] (++)).
Qed.

(** X8. When [Policy] returns an aggregate, its three maps have the same keys:
    the names of the accounts of the container's attachments. An account
    gets a service-role bucket even when no role is stored in it. The
    aggregate points to the registry of the container. The output is taken
    after a [compress] that leaves what it accepts unchanged. *)
Theorem Policy_domains c p m :
  compress_transparent →
  Container_Policy c = (Some p, None, m) →
  dom (AccountPolicies p) = accounts_of (attachments c) ∧
  dom (AccountRolePolicies p) = accounts_of (attachments c) ∧
  dom (ServiceRolePolicies p) = accounts_of (attachments c) ∧
  p_amper p = c_amper c ∧
  (∀ acct, acct ∈ accounts_of (attachments c) ↔
     ∃ a, a ∈ attachments c ∧ acc_Name (a_account a) = acct).
Proof.
  intros Htr Hrun.
  assert (∀ acct, (acct ∈ accounts_of (attachments c) ↔
                   is_Some (AccountPolicies p !! acct)) ∧
                  (acct ∈ accounts_of (attachments c) ↔
                   is_Some (AccountRolePolicies p !! acct))) as Hlook.
  { intros acct.
    destruct (Policy_account c p m acct Htr Hrun) as [Hin Hout].
    destruct (decide (acct ∈ accounts_of (attachments c))) as [Hd|Hd].
    - destruct (Hin Hd) as (_ & -> & ->). split; split; eauto.
    - destruct (Hout Hd) as (_ & -> & ->).
      split; (split; [done|by intros [? ?]]). }
  apply Policy_success in Hrun as (t & st & _ & Hinv & Hc & _ & _).
  apply Htr in Hc as ->.
  pose proof (aggregate_lookup c st "") as (_ & _ & Hsrp & Hamper).
  split_and!.
  - apply set_eq. intros acct. rewrite elem_of_dom. symmetry. apply Hlook.
  - apply set_eq. intros acct. rewrite elem_of_dom. symmetry. apply Hlook.
  - rewrite Hsrp. apply (inv_dom_srp _ _ _ _ Hinv).
  - done.
  - apply elem_of_accounts_of.
Qed.

(** X9. When the first loop ends well, [Policy] has called the template's
    render once for each attachment, in the order of the container's list,
    and [compress] once, as its last call, on the aggregate it built. *)
Theorem Policy_trace_complete c t st :
  run_loop c = (t, Ok st) →
  Policy_trace c = t ++ [EvCompress (aggregate c st)] ∧
  t = attachments c ≫= events_of c ∧
  omap rendered_attachment (Policy_trace c) = attachments c ∧
  Forall (λ ev, is_compress_event ev = false) t.
Proof.
  intros Hrun.
  destruct (Policy_trace_Ok _ _ _ Hrun) as (Htrace & Ht & Hall).
  split_and!; [done..|].
  rewrite Ht. apply events_of_all.
Qed.

(** X10. When a turn of the first loop fails, it is the turn of the first
    attachment that fails after the ones before it went well: [Policy] has
    rendered the attachments up to that one, each once and in order, has
    rendered none of the later ones, has not called [compress], and returns
    the error of that turn with no aggregate and no missing list. *)
Theorem Policy_first_failure c t e :
  run_loop c = (t, Err e) →
  ∃ l1 a l2 t1 st t2,
    attachments c = l1 ++ a :: l2 ∧
    foldM (loop_body c) initial l1 = (t1, Ok st) ∧
    loop_body c st a = (t2, Err e) ∧
    Policy_trace c = t1 ++ t2 ∧
    omap rendered_attachment (Policy_trace c) = l1 ++ [a] ∧
    Forall (λ ev, is_compress_event ev = false) (Policy_trace c) ∧
    Container_Policy c = (None, Some e, []).
Proof.
  intros Hrun. pose proof Hrun as Hrun'. unfold run_loop in Hrun'.
  apply foldM_Err_inv in Hrun'
    as (l1 & a & l2 & t1 & st & t2 & Hl & Hl1 & Ha & ->).
  exists l1, a, l2, t1, st, t2.
  assert (Policy_trace c = t1 ++ t2) as Htrace.
  { unfold Policy_trace, Policy_run. by rewrite Hrun. }
  pose proof (inv_trace _ _ _ _ (loop_inv_run _ _ _ _ Hl1)) as Ht1.
  destruct (events_of_all c l1) as [Hall Hnc].
  destruct (failing_turn_events _ _ _ _ _ Ha) as [Hone Hnc2].
  split_and!; try done.
  - by rewrite Htrace, omap_app, Ht1, Hall, Hone.
  - rewrite Htrace. apply Forall_app. split; [by rewrite Ht1|done].
  - unfold Container_Policy, Policy_run. by rewrite Hrun.
Qed.

(** X11. The account policies of an account end with the deny-everything
    document exactly when no attachment on the account whose render gave a
    document has a template with a scope identifier, and with the allow-all
    document exactly when some such attachment has one; they end with one
    of the two. The output is taken after a [compress] that leaves what it
    accepts unchanged. *)
Theorem Policy_deny_all_iff c p m acct ap :
  compress_transparent →
  Container_Policy c = (Some p, None, m) →
  AccountPolicies p !! acct = Some ap →
  (last ap = Some (mkDoc "" [denyAll]) ↔
   ∀ a, a ∈ attachments c → acc_Name (a_account a) = acct →
     is_present c a = true → pt_Scope (a_pt a) = []) ∧
  (last ap = Some (mkDoc "" [allowAll]) ↔
   ∃ a, a ∈ attachments c ∧ acc_Name (a_account a) = acct ∧
     is_present c a = true ∧ pt_Scope (a_pt a) ≠ []) ∧
  (last ap = Some (mkDoc "" [denyAll]) ∨
   last ap = Some (mkDoc "" [allowAll])).
Proof.
  intros Htr Hrun Hap.
  destruct (Policy_account c p m acct Htr Hrun) as [Hin Hout].
  destruct (decide (acct ∈ accounts_of (attachments c))) as [Hd|Hd].
  2: { destruct (Hout Hd) as (_ & Hnone & _). congruence. }
  destruct (Hin Hd) as (_ & Hap' & _). cbv zeta in Hap'.
  rewrite Hap in Hap'. injection Hap' as ->.
  assert (account_scope c acct (attachments c) = ∅ ↔
          ∀ a, a ∈ attachments c → acc_Name (a_account a) = acct →
            is_present c a = true → pt_Scope (a_pt a) = []) as Hnone.
  { split.
    - intros Hempty a Ha Hacct Hp.
      destruct (pt_Scope (a_pt a)) as [|s scope] eqn:Hs; [done|].
      assert (s ∈ account_scope c acct (attachments c)) as Hin'.
      { apply elem_of_account_scope. exists a. split_and!; [done..|].
        rewrite Hs. by left. }
      rewrite Hempty in Hin'. by apply not_elem_of_empty in Hin'.
    - intros Hall. apply set_eq. intros s. split.
      + intros (a & Ha & Hacct & Hp & Hs)%elem_of_account_scope.
        rewrite (Hall a Ha Hacct Hp) in Hs. by apply elem_of_nil in Hs.
      + by intros ?%not_elem_of_empty. }
  assert (account_scope c acct (attachments c) ≠ ∅ ↔
          ∃ a, a ∈ attachments c ∧ acc_Name (a_account a) = acct ∧
            is_present c a = true ∧ pt_Scope (a_pt a) ≠ []) as Hsome.
  { split.
    - intros Hne. apply set_choose_L in Hne as [s Hs].
      apply elem_of_account_scope in Hs as (a & Ha & Hacct & Hp & Hs).
      exists a. split_and!; [done..|]. intros Hnil. rewrite Hnil in Hs.
      by apply elem_of_nil in Hs.
    - intros (a & Ha & Hacct & Hp & Hs) Hempty.
      apply Hs. by apply (proj1 Hnone Hempty a). }
  rewrite <- Hnone, <- Hsome.
  destruct (decide (account_scope c acct (attachments c) = ∅)) as [He|Hne].
  - rewrite closing_empty by done. rewrite last_snoc.
    split_and!; [done| |by left]. split; [intros [= ?]|]; done.
  - rewrite closing_non_empty by done.
    rewrite (last_app_cons _ [mkDoc "" [allowAll]]). cbn.
    split_and!; [|done|by right]. split; [intros [= ?]|]; done.
Qed.

(** X12. The output has an entry under an account and a role name exactly when
    some attachment on that account whose render gave a document has a
    template that declares a service role of that name. The output is
    taken after a [compress] that leaves what it accepts unchanged. *)
Theorem Policy_service_entry_iff c p m acct role :
  compress_transparent →
  Container_Policy c = (Some p, None, m) →
  is_Some (ServiceRolePolicies p !! acct ≫= (.!! role)) ↔
  ∃ a, a ∈ attachments c ∧ acc_Name (a_account a) = acct ∧
    is_present c a = true ∧
    ∃ sr, pt_ServiceRole (a_pt a) = Some sr ∧ sr_Name sr = role.
Proof.
  intros Htr (t & st & Hrun & Hinv & Hc & _ & _)%Policy_success.
  apply Htr in Hc as ->.
  pose proof (aggregate_lookup c st "") as (_ & _ & -> & _).
  rewrite (inv_srp _ _ _ _ Hinv), last_is_Some.
  pose proof (loop_turns_ok _ _ _ _ Hrun) as Hok.
  rewrite Forall_forall in Hok.
  assert (∀ a, stores c acct role a ↔
               acc_Name (a_account a) = acct ∧ is_present c a = true ∧
               ∃ sr, pt_ServiceRole (a_pt a) = Some sr ∧ sr_Name sr = role)
    as Hstores.
  { intros a. unfold stores.
    destruct (pt_ServiceRole (a_pt a)) as [sr|]; cbn.
    - split.
      + intros (? & ? & [= ?]). eauto.
      + intros (? & ? & sr' & [= <-] & ?). split_and!; [done..|]. by f_equal.
    - split; [by intros (_ & _ & ?)|by intros (_ & _ & ? & ? & _)]. }
  unfold service_pairs. split.
  - intros Hne.
    destruct (filter (stores c acct role) (attachments c)) as [|a l] eqn:Hf;
      [done|].
    assert (a ∈ filter (stores c acct role) (attachments c)) as Ha
      by (rewrite Hf; by left).
    apply list_elem_of_filter in Ha as [Hs Ha]. exists a. split; [done|].
    by apply Hstores.
  - intros (a & Ha & Hs). apply Hstores in Hs.
    assert (a ∈ filter (stores c acct role) (attachments c)) as Hin
      by (by apply list_elem_of_filter).
    destruct Hs as (_ & Hp & Hsr).
    destruct (Hok a Ha) as [Habs|(pd & _ & _ & Hpair)].
    { unfold is_absent, is_present in *. by destruct (rendered c a) as [[?|]|]. }
    destruct Hpair as [srp Hsrp].
    { by destruct (pt_ServiceRole (a_pt a)). }
    intros Hnil.
    assert (srp ∈ omap (service_pair c)
                    (filter (stores c acct role) (attachments c))) as Hsrp'.
    { apply list_elem_of_omap. by exists a. }
    rewrite Hnil in Hsrp'. by apply elem_of_nil in Hsrp'.
Qed.

(** X13. When [Policy] returns an aggregate, the missing list it returns is the
    sub-list of the container's attachments whose render gave no document,
    in the container's order; every other attachment rendered to a
    document. *)
Theorem Policy_missing_exact c p m :
  Container_Policy c = (Some p, None, m) →
  m = missing_of c (attachments c) ∧
  m `sublist_of` attachments c ∧
  (∀ a, a ∈ m ↔ a ∈ attachments c ∧ rendered c a = Ok None) ∧
  (∀ a, a ∈ attachments c → a ∉ m → ∃ pd, rendered c a = Ok (Some pd)).
Proof.
  intros Hrun. pose proof (Policy_missing _ _ _ Hrun) as ->.
  apply Policy_success in Hrun as (t & st & Hrun & _).
  pose proof (loop_turns_ok _ _ _ _ Hrun) as Hok.
  rewrite Forall_forall in Hok.
  assert (∀ a, a ∈ missing_of c (attachments c) ↔
               a ∈ attachments c ∧ rendered c a = Ok None) as Hmem.
  { intros a. unfold missing_of. rewrite list_elem_of_filter.
    unfold is_absent.
    destruct (rendered c a) as [[pd|]|e]; cbn; split; intros [? ?]; done. }
  split_and!; [done|apply sublist_filter|done|].
  intros a Ha Hnot. destruct (Hok a Ha) as [Habs|(pd & Hpd & _)]; [|eauto].
  destruct Hnot. apply Hmem. split; [done|].
  unfold is_absent in Habs. by destruct (rendered c a) as [[?|]|].
Qed.

(** X14. The unsupported-version error is raised, directly after the render,
    exactly for a rendered document whose version is neither empty nor the
    supported one: the supported version is accepted like the empty one. *)
Theorem version_error_iff c st a pd :
  rendered c a = Ok (Some pd) →
  loop_body c st a
  = ([EvRenderTemplate a],
     Err ("Unsupported policy version '" +:+ Version pd +:+ "'")) ↔
  Version pd ≠ "" ∧ Version pd ≠ IAMPolicyVersion.
Proof.
  intros Hpd. rewrite loop_body_cases, Hpd. case_decide as Hv.
  - done.
  - split; [|done]. rewrite accept_cases, service_role_step_cases.
    destruct (pt_ServiceRole (a_pt a)) as [sr|]; [|done].
    destruct (renderServiceRole _ _ _ _) as [pol|e1]; [|done].
    by destruct (renderServiceAssumeRole _ _ _ _).
Qed.

(** X15. After a successful [AddAttachment], a [Policy] that returns an
    aggregate has rendered the old attachments and then the new one, and
    the aggregate has a list for the new attachment's account that ends,
    before the closing documents, with the document of the new attachment
    (the empty placeholder when its render gave none, in which case the
    attachment is the last of the missing list). The output is taken after
    a [compress] that leaves what it accepts unchanged. *)
Theorem attach_then_Policy c k policyTemplateID accountName vars c' a p m :
  AddAttachment c k policyTemplateID accountName vars = (c', Ok a) →
  compress_transparent →
  Container_Policy c' = (Some p, None, m) →
  omap rendered_attachment (Policy_trace c') = attachments c ++ [a] ∧
  (∃ po,
     final_scope c' (acc_Name (a_account a)) = Some po ∧
     AccountPolicies p !! acc_Name (a_account a)
     = Some (account_docs c' (acc_Name (a_account a)) (attachments c)
             ++ [doc_of c' a] ++ closing po)) ∧
  (rendered c' a = Ok None → last m = Some a ∧ doc_of c' a = emptyDoc).
Proof.
  intros (pt & account & _ & _ & _ & Ha & ->)%AddAttachment_Ok Htr Hrun.
  set (c' := mkContainer _ _ _ _) in *.
  assert (attachments c' = attachments c ++ [a]) as Hl by done.
  split_and!.
  - pose proof Hrun as (t & st & Hloop & _)%Policy_success.
    destruct (Policy_trace_Ok _ _ _ Hloop) as (_ & _ & Hall).
    by rewrite Hall.
  - destruct (Policy_account c' p m (acc_Name (a_account a)) Htr Hrun)
      as [Hin _].
    destruct Hin as (Hscope & Hap & _).
    { apply elem_of_accounts_of. exists a. split; [|done].
      rewrite Hl. apply elem_of_app. right. by left. }
    cbv zeta in *. eexists. split; [exact Hscope|].
    rewrite Hap, Hl. unfold account_docs at 1.
    rewrite filter_snoc_account, decide_True, fmap_app by done.
    by rewrite <- (assoc_L (++)).
  - intros Habs. rewrite (Policy_missing _ _ _ Hrun), Hl.
    unfold missing_of, doc_of. rewrite filter_app, filter_cons, filter_nil.
    rewrite decide_True by (unfold is_absent; by rewrite Habs).
    by rewrite last_snoc, Habs.
Qed.

End PolicyMore.

Lemma Policy_domains_witness :
  ∃ p m, Demo.Policy_of Demo.absent_between = (Some p, None, m) ∧
    dom (ServiceRolePolicies p) = dom (AccountPolicies p) ∧
    dom (AccountRolePolicies p) = dom (AccountPolicies p) ∧
    p_amper p = 0.
Proof.
  assert (∃ p m, Demo.Policy_of Demo.absent_between = (Some p, None, m))
    as (p & m & Hrun) by (eexists _, _; vm_compute; reflexivity).
  destruct (Policy_domains (E:=Demo.collaborators) (O:=Demo.forwards)
              Demo.absent_between p m Demo_transparent Hrun)
    as (Hap & Harp & Hsrp & Hamper & _).
  exists p, m. split; [exact Hrun|].
  split; [by rewrite Hap, Hsrp|]. split; [by rewrite Hap, Harp|exact Hamper].
Defined.

Lemma Policy_trace_complete_witness :
  omap rendered_attachment
    (Policy_trace (E:=Demo.collaborators) (O:=Demo.forwards) Demo.two_workers)
  = attachments Demo.two_workers.
Proof.
  assert (∃ t st, run_loop (E:=Demo.collaborators) Demo.two_workers = (t, Ok st))
    as (t & st & Hrun) by (eexists _, _; vm_compute; reflexivity).
  destruct (Policy_trace_complete (E:=Demo.collaborators) (O:=Demo.forwards)
              Demo.two_workers t st Hrun) as (_ & _ & Hall & _).
  exact Hall.
Defined.

Lemma Policy_first_failure_witness :
  Forall (λ ev, is_compress_event ev = false)
    (Policy_trace (E:=Demo.collaborators) (O:=Demo.forwards) Demo.old_version) ∧
  ∃ l1 a l2, attachments Demo.old_version = l1 ++ a :: l2 ∧
    omap rendered_attachment
      (Policy_trace (E:=Demo.collaborators) (O:=Demo.forwards) Demo.old_version)
    = l1 ++ [a].
Proof.
  assert (∃ t e, run_loop (E:=Demo.collaborators) Demo.old_version = (t, Err e))
    as (t & e & Hrun) by (eexists _, _; vm_compute; reflexivity).
  destruct (Policy_first_failure (E:=Demo.collaborators) (O:=Demo.forwards)
              Demo.old_version t e Hrun)
    as (l1 & a & l2 & t1 & st & t2 & Hl & _ & _ & _ & Hrend & Hnc & _).
  split; [exact Hnc|]. exists l1, a, l2. by split.
Defined.

Lemma Policy_deny_all_iff_witness :
  ∃ p m ap, Demo.Policy_of Demo.only_absent = (Some p, None, m) ∧
    AccountPolicies p !! "B" = Some ap ∧
    last ap = Some (mkDoc "" [denyAll]).
Proof.
  assert (∃ p m, Demo.Policy_of Demo.only_absent = (Some p, None, m))
    as (p & m & Hrun) by (eexists _, _; vm_compute; reflexivity).
  assert (AccountPolicies p !! "B" = Some [emptyDoc; mkDoc "" [denyAll]])
    as Hap.
  { apply (f_equal (λ r, match r.1.1 with
                         | Some q => AccountPolicies q !! "B"
                         | None => None
                         end)) in Hrun.
    vm_compute in Hrun. symmetry. exact Hrun. }
  exists p, m, [emptyDoc; mkDoc "" [denyAll]].
  split; [exact Hrun|]. split; [exact Hap|].
  apply (proj1 (Policy_deny_all_iff (E:=Demo.collaborators)
                  (O:=Demo.forwards) Demo.only_absent p m "B" _
                  Demo_transparent Hrun Hap)).
  intros a Ha _ Hp. apply list_elem_of_singleton in Ha as ->.
  by vm_compute in Hp.
Defined.

Lemma Policy_service_entry_iff_witness :
  ∃ p m, Demo.Policy_of Demo.two_workers = (Some p, None, m) ∧
    is_Some (ServiceRolePolicies p !! "A" ≫= (.!! "worker")).
Proof.
  assert (∃ p m, Demo.Policy_of Demo.two_workers = (Some p, None, m))
    as (p & m & Hrun) by (eexists _, _; vm_compute; reflexivity).
  exists p, m. split; [exact Hrun|].
  apply (Policy_service_entry_iff (E:=Demo.collaborators) (O:=Demo.forwards)
           Demo.two_workers p m "A" "worker" Demo_transparent Hrun).
  exists (Demo.attach Demo.Tworker2 Demo.acctA []). split_and!.
  - apply elem_of_cons. right. apply elem_of_cons. right. by left.
  - reflexivity.
  - reflexivity.
  - by eexists.
Defined.

Lemma Policy_missing_exact_witness :
  ∃ p m, Demo.Policy_of Demo.absent_between = (Some p, None, m) ∧
    m = [Demo.attach Demo.Tabsent Demo.acctB []] ∧
    m `sublist_of` attachments Demo.absent_between.
Proof.
  assert (∃ p m, Demo.Policy_of Demo.absent_between = (Some p, None, m))
    as (p & m & Hrun) by (eexists _, _; vm_compute; reflexivity).
  destruct (Policy_missing_exact (E:=Demo.collaborators) (O:=Demo.forwards)
              Demo.absent_between p m Hrun) as (Hm & Hsub & _).
  exists p, m. split; [exact Hrun|]. split; [|exact Hsub].
  rewrite Hm. vm_compute. reflexivity.
Defined.

Lemma version_error_iff_witness :
  loop_body (E:=Demo.collaborators) Demo.old_version initial
    (Demo.attach Demo.Told Demo.acctA [])
  = ([EvRenderTemplate (Demo.attach Demo.Told Demo.acctA [])],
     Err "Unsupported policy version '2008-10-17'").
Proof.
  apply (version_error_iff (E:=Demo.collaborators) Demo.old_version initial
           (Demo.attach Demo.Told Demo.acctA []) (mkDoc "2008-10-17" [])
           eq_refl).
  by split.
Defined.

Lemma attach_then_Policy_witness :
  AddAttachment (Demo.container_of [Demo.attach Demo.T1 Demo.acctA []])
    Demo.kernel0 "T2" "A" (list_to_map [("Bucket", "x")])
  = (Demo.scenario, Ok (Demo.attach Demo.T2 Demo.acctA [("Bucket", "x")])) ∧
  omap rendered_attachment
    (Policy_trace (E:=Demo.collaborators) (O:=Demo.forwards) Demo.scenario)
  = [Demo.attach Demo.T1 Demo.acctA [];
     Demo.attach Demo.T2 Demo.acctA [("Bucket", "x")]].
Proof.
  assert (AddAttachment (Demo.container_of [Demo.attach Demo.T1 Demo.acctA []])
            Demo.kernel0 "T2" "A" (list_to_map [("Bucket", "x")])
          = (Demo.scenario,
             Ok (Demo.attach Demo.T2 Demo.acctA [("Bucket", "x")])))
    as Hadd by reflexivity.
  split; [exact Hadd|].
  assert (∃ p m, Demo.Policy_of Demo.scenario = (Some p, None, m))
    as (p & m & Hrun) by (eexists _, _; vm_compute; reflexivity).
  destruct (attach_then_Policy (E:=Demo.collaborators) (O:=Demo.forwards)
              _ _ _ _ _ _ _ p m Hadd Demo_transparent Hrun) as (Hall & _).
  exact Hall.
Defined.

(** X7. Binding more variables never turns a successful [AddAttachment] into a
    failure: when the call succeeds with [vars], it succeeds with every
    mapping that extends [vars], for the same template and account, and
    the attachment holds the larger mapping. *)
Theorem AddAttachment_more_vars c k policyTemplateID accountName
    (vars vars' : gmap string string) c' a :
  vars ⊆ vars' →
  AddAttachment c k policyTemplateID accountName vars = (c', Ok a) →
  AddAttachment c k policyTemplateID accountName vars'
  = (mkContainer (c_self c) (c_amper c) (ID c)
       (attachments c ++ [mkAttachment (a_pt a) (a_account a) vars']),
     Ok (mkAttachment (a_pt a) (a_account a) vars')).
Proof.
  intros Hsub (pt & account & Hpt & Hacc & Hvars & -> & _)%AddAttachment_Ok.
  unfold AddAttachment. rewrite Hpt, Hacc. cbn.
  assert (first_unset (pt_Vars pt) vars' = None) as ->; [|done].
  apply first_unset_None. intros v Hv.
  destruct (proj1 (first_unset_None _ _) Hvars v Hv) as [x Hx].
  exists x. by eapply lookup_weaken.
Qed.

Lemma AddAttachment_more_vars_witness :
  AddAttachment Demo.empty_container Demo.kernel0 "T2" "A"
    (list_to_map [("Bucket", "x"); ("Extra", "y")])
  = (Demo.container_of
       [Demo.attach Demo.T2 Demo.acctA [("Bucket", "x"); ("Extra", "y")]],
     Ok (Demo.attach Demo.T2 Demo.acctA [("Bucket", "x"); ("Extra", "y")])).
Proof.
  assert (AddAttachment Demo.empty_container Demo.kernel0 "T2" "A"
            (list_to_map [("Bucket", "x")])
          = (Demo.container_of [Demo.attach Demo.T2 Demo.acctA [("Bucket", "x")]],
             Ok (Demo.attach Demo.T2 Demo.acctA [("Bucket", "x")])))
    as Hadd by reflexivity.
  apply (AddAttachment_more_vars _ _ _ _ _
           (list_to_map [("Bucket", "x"); ("Extra", "y")]) _ _) in Hadd.
  - exact Hadd.
  - apply map_subseteq_spec. intros i x Hi.
    apply elem_of_list_to_map_2 in Hi.
    apply list_elem_of_singleton in Hi as [= -> ->]. reflexivity.
Defined.
